(** * onlydust-star-tracker: the data pipeline of [main.py]

    A shallow embedding of the enrichment pipeline
    ([load_and_process_data]), the facet filters and the contact
    persistence of [src/onlydust_star_tracker/main.py], with the
    properties the specification states about them.

    Conventions of the embedding:
    - a Python [str] is a [string]; its characters are the 8-bit code
      points U+0000..U+00FF;
    - a dictionary loaded from YAML is a [gmap] with string keys, and a
      failed subscript raises [KeyError];
    - a pandas cell that may be missing is an [option] ([None] is NaN),
      except in a float64 column, where the missing value is the float
      NaN itself;
    - a DataFrame is the list of its rows, in index order; an
      element-wise column assignment is a [map] over the rows;
    - Python exceptions are values of [exn], threaded by the [result]
      monad. *)

From Stdlib Require Import ZArith Lia Bool Ascii String List Floats.
From stdpp Require Import base option list gmap strings sorting.

Local Open Scope Z_scope.

(** ** Exceptions *)

Inductive exn : Type :=
  | KeyError (key : string)
  | AttributeError
  | LookupError
  | StopExecution (message : string).

Inductive result (A : Type) : Type :=
  | Ok (a : A)
  | Raise (e : exn).

Arguments Ok {A} a.
Arguments Raise {A} e.

Definition bind {A B : Type} (m : result A) (k : A -> result B) : result B :=
  match m with
  | Ok a => k a
  | Raise e => Raise e
  end.

Notation "'let*' x ':=' m 'in' k" := (bind m (fun x => k))
  (at level 10, x name, m at level 100, k at level 200).

(** [try: m except: h] is Python's [try] with a bare [except]. *)
Definition try_except {A : Type} (m : result A) (handler : A) : A :=
  match m with
  | Ok a => a
  | Raise _ => handler
  end.

(** [d[k]] on a dictionary. *)
Definition getitem {V : Type} (d : gmap string V) (k : string) : result V :=
  match d !! k with
  | Some v => Ok v
  | None => Raise (KeyError k)
  end.

(** [[f(x) for x in xs]], stopping at the first exception. *)
Fixpoint map_result {A B : Type} (f : A -> result B) (xs : list A) : result (list B) :=
  match xs with
  | [] => Ok []
  | x :: xs' =>
      let* y := f x in
      let* ys := map_result f xs' in
      Ok (y :: ys)
  end.

(** ** Python strings *)

Module Py.

(** [c.isspace()] for a code point below 256. *)
Definition isspace (c : ascii) : bool :=
  match c with
  | "009" | "010" | "011" | "012" | "013"
  | "028" | "029" | "030" | "031" | " "
  | "133" | "160" => true
  | _ => false
  end%char.

Definition is_empty (s : string) : bool :=
  match s with
  | EmptyString => true
  | String _ _ => false
  end.

(** The truth value of a string: non-empty. *)
Definition truthy (s : string) : bool := negb (is_empty s).

Fixpoint lstrip (s : string) : string :=
  match s with
  | EmptyString => EmptyString
  | String c s' => if isspace c then lstrip s' else s
  end.

Fixpoint rstrip (s : string) : string :=
  match s with
  | EmptyString => EmptyString
  | String c s' =>
      let t := rstrip s' in
      if isspace c && is_empty t then EmptyString else String c t
  end.

(** [s.strip()] *)
Definition strip (s : string) : string := rstrip (lstrip s).

(** [s.split(sep)] for a one-character separator: one piece more than
    there are separators, empty pieces kept. *)
Fixpoint split (sep : ascii) (s : string) : list string :=
  match s with
  | EmptyString => [EmptyString]
  | String c s' =>
      if Ascii.eqb c sep then EmptyString :: split sep s'
      else match split sep s' with
           | [] => [String c EmptyString]
           | piece :: pieces => String c piece :: pieces
           end
  end.

(** [needle in hay] on strings: substring test. *)
Fixpoint contains (needle hay : string) : bool :=
  String.prefix needle hay
  || match hay with
     | EmptyString => false
     | String _ hay' => contains needle hay'
     end.

(** [x in xs] on a list of strings. *)
Definition mem (x : string) (xs : list string) : bool :=
  existsb (String.eqb x) xs.

(** [any(f(x) for x in xs)] *)
Definition any {A : Type} (f : A -> bool) (xs : list A) : bool := existsb f xs.

End Py.

(** ** Configuration *)

(** The part of [config.yaml] the pipeline reads:
    [developer_categories] maps a band name to a dictionary holding its
    [max_prs]. *)
Record Config : Type := {
  developer_categories : gmap string (gmap string Z)
}.

(** ** Developer category (lines 42-53) *)

Definition max_prs (categories : gmap string (gmap string Z)) (band : string) : result Z :=
  let* entry := getitem categories band in
  getitem entry "max_prs".

Definition get_developer_category (config : Config) (pr_count : Z) : result string :=
  let categories := developer_categories config in
  let* beginner := max_prs categories "beginner" in
  if pr_count <=? beginner then Ok "Beginner"
  else
    let* rising_star := max_prs categories "rising_star" in
    if pr_count <=? rising_star then Ok "Rising Star"
    else
      let* established := max_prs categories "established" in
      if pr_count <=? established then Ok "Established Developer"
      else
        let* senior := max_prs categories "senior" in
        if pr_count <=? senior then Ok "Senior Contributor"
        else Ok "Elite Developer".

(** The band configuration of the specification's example. *)
Definition example_config : Config :=
  {| developer_categories :=
       <["beginner" := {["max_prs" := 5]}]>
       (<["rising_star" := {["max_prs" := 20]}]>
       (<["established" := {["max_prs" := 50]}]>
       (<["senior" := {["max_prs" := 100]}]> ∅))) |}.

(** The five labels. *)
Definition labels : list string :=
  ["Beginner"; "Rising Star"; "Established Developer"; "Senior Contributor";
   "Elite Developer"].

(** All four maxima are configured. *)
Definition configured (config : Config) (beginner rising_star established senior : Z) : Prop :=
  let categories := developer_categories config in
  max_prs categories "beginner" = Ok beginner /\
  max_prs categories "rising_star" = Ok rising_star /\
  max_prs categories "established" = Ok established /\
  max_prs categories "senior" = Ok senior.

(** ** Tables *)

(** A row of the contributor CSV as [pd.read_csv] returns it. The
    reward column is float64 (a missing cell is NaN); [pr_count] holds
    integers, [None] where the cell is missing. *)
Module Raw.
Record row : Type := {
  contributor : option string;
  total_rewarded_usd_amount : float;
  pr_count : option Z;
  ecosystems : option string;
  country : option string;
  languages : option string;
  projects : option string;
  categories : option string
}.
End Raw.

(** A row after the derived columns are computed (line 94). *)
Record Enriched : Type := {
  contributor : option string;
  total_rewarded_usd_amount : float;
  pr_count : Z;
  cost_per_pr : float;
  developer_category : string;
  ecosystems : option string;
  is_starknet_exclusive : bool;
  country : string;
  country_name : string;
  languages : list string;
  projects : list string;
  categories : list string
}.

(** A row of [contacts.csv]; any of its cells may be empty. *)
Module Contacts.
Record row : Type := {
  Developer : option string;
  Contact : option bool;
  Contacted : option bool
}.
End Contacts.

(** A row of the table [load_and_process_data] returns: the enriched
    columns and the three columns the merge adds, the flags filled. *)
Record Row : Type := {
  base : Enriched;
  Developer : option string;
  Contact : bool;
  Contacted : bool
}.

(** The file [data/generated/contacts.csv]: [None] while it does not
    exist. The CSV layer is an opaque table store: reading returns the
    table last written. *)
Definition contacts_file : Type := option (list Contacts.row).

(** ** Numeric columns (lines 31-39) *)

(** [Series.fillna(0)] on a float64 cell. *)
Definition fillna_float (x : float) : float :=
  if PrimFloat.is_nan x then 0%float else x.

Definition fillna {A : Type} (value : A) (x : option A) : A :=
  match x with
  | Some a => a
  | None => value
  end.

(** The float64 of an int64 (exact below 2^53 in magnitude). *)
Definition float_of_int (n : Z) : float :=
  if 0 <=? n then PrimFloat.of_uint63 (Uint63.of_Z n)
  else PrimFloat.opp (PrimFloat.of_uint63 (Uint63.of_Z (- n))).

(** One element of [np.where(pr_count > 0, total / pr_count, total)]:
    both branches are computed, the condition selects. *)
Definition np_where_cost (total : float) (pr_count : Z) : float :=
  let quotient := PrimFloat.div total (float_of_int pr_count) in
  if 0 <? pr_count then quotient else total.

(** ** Starknet exclusivity (lines 58-62) *)

Definition starknet_exclusive (x : option string) : bool :=
  match x with
  | Some s => Py.contains "Starknet" s && negb (Py.contains "," s)
  | None => false
  end.

(** ** List columns (lines 80-94) *)

(** [[t.strip() for t in str(x).split(",") if t.strip()]] *)
Definition parse_list (x : string) : list string :=
  map Py.strip (List.filter (fun t => Py.truthy (Py.strip t)) (Py.split "," x)).

Definition list_column (cell : option string) : list string :=
  parse_list (fillna "" cell).

(** ** Contact merge (lines 101-109) *)

Definition read_contacts (file : contacts_file) : list Contacts.row :=
  match file with
  | Some contacts_df => contacts_df
  | None => []
  end.

Definition key_eqb (a b : option string) : bool := bool_decide (a = b).

(** [df.merge(contacts_df, how="left", left_on="contributor",
    right_on="Developer")], then [fillna(False)] on both flags: each
    left row is paired with every right row of the same key, in file
    order; a left row without a match is kept once, its right columns
    missing. Missing keys match each other. *)
Definition merge_row (contacts_df : list Contacts.row) (e : Enriched) : list Row :=
  match List.filter (fun c => key_eqb (contributor e) (Contacts.Developer c)) contacts_df with
  | [] => [ {| base := e; Developer := None;
               Contact := fillna false None;
               Contacted := fillna false None |} ]
  | matches =>
      map (fun c => {| base := e; Developer := Contacts.Developer c;
                       Contact := fillna false (Contacts.Contact c);
                       Contacted := fillna false (Contacts.Contacted c) |}) matches
  end.

Definition merge_contacts (df : list Enriched) (contacts_df : list Contacts.row) : list Row :=
  flat_map (merge_row contacts_df) df.

(** ** The pipeline *)

Section Pipeline.

(** A record of the country registry. *)
Record Country : Type := { name : string }.

(** [pycountry.countries.get(alpha_2=...)]: the record, [None] when
    the code is unknown, or an exception. *)
Variable countries_get : string -> result (option Country).

Definition attr_name (c : option Country) : result string :=
  match c with
  | Some c => Ok (name c)
  | None => Raise AttributeError
  end.

(** Lines 68-75. *)
Definition country_code_to_name (code : string) : string :=
  try_except
    (if String.eqb code "Unknown" then Ok "Unknown"
     else
       let* c := countries_get (Py.strip code) in
       attr_name c)
    "Unknown".

(** Lines 31-94 on one row. *)
Definition enrich (config : Config) (r : Raw.row) : result Enriched :=
  let total := fillna_float (Raw.total_rewarded_usd_amount r) in
  let prs := fillna 0 (Raw.pr_count r) in
  let* category := get_developer_category config prs in
  let code := fillna "Unknown" (Raw.country r) in
  Ok {| contributor := Raw.contributor r;
        total_rewarded_usd_amount := total;
        pr_count := prs;
        cost_per_pr := np_where_cost total prs;
        developer_category := category;
        ecosystems := Raw.ecosystems r;
        is_starknet_exclusive := starknet_exclusive (Raw.ecosystems r);
        country := code;
        country_name := country_code_to_name code;
        languages := list_column (Raw.languages r);
        projects := list_column (Raw.projects r);
        categories := list_column (Raw.categories r) |}.

(** [data] is the CSV at the configured path, [None] when the file
    does not exist. *)
Definition load_and_process_data (config : Config) (data : option (list Raw.row))
    (contacts : contacts_file) : result (list Row) :=
  match data with
  | None => Raise (StopExecution "Data file not found")
  | Some df =>
      let* df := map_result (enrich config) df in
      Ok (merge_contacts df (read_contacts contacts))
  end.

End Pipeline.

(** [save_contacts] (lines 114-119): the new content of the file. *)
Definition save_contacts (df : list Row) : contacts_file :=
  Some (map (fun r => {| Contacts.Developer := contributor (base r);
                         Contacts.Contact := Some (Contact r);
                         Contacts.Contacted := Some (Contacted r) |}) df).


(** ** The developer table (lines 267-289) *)

(** A row of the table shown in the editor; the user may clear a cell
    of the key and of the flags. *)
Module Table.
Record row : Type := {
  Developer : option string;
  Category : string;
  Total_Rewards_USD : float;
  Pull_Requests : Z;
  Cost_per_PR_USD : float;
  Country : string;
  Contact : option bool;
  Contacted : option bool
}.
End Table.

(** ** DataFrame objects *)

(** DataFrames are objects: a variable holds a reference, and the heap
    maps the reference to the rows. [df.copy()] and boolean indexing
    [df[mask]] build a new object and leave their argument alone. *)
Abbreviation heap := (gmap nat (list Row)).

Definition frame (h : heap) (ref : nat) : list Row := h !!! ref.

Definition new_frame (rows : list Row) (h : heap) : nat * heap :=
  let ref := fresh (dom h) in
  (ref, <[ref := rows]> h).

(** [df.copy()] *)
Definition copy (df : nat) (h : heap) : nat * heap :=
  new_frame (frame h df) h.

(** [df[df[column].apply(f)]]: the rows whose mask is true, in order. *)
Definition boolean_index (df : nat) (mask : Row -> bool) (h : heap) : nat * heap :=
  new_frame (List.filter mask (frame h df)) h.

(** ** Facet filters (lines 153-172) *)

(** What the user has chosen in the widgets of one run, and what the
    user leaves in the editable table. *)
Record Session : Type := {
  selected_languages : list string;
  selected_categories : list string;
  selected_projects : list string;
  selected_dev_categories : list string;
  data_editor : list Table.row -> list Table.row;
  editor_in_session_state : bool
}.

(** A list is true when it is not empty. *)
Definition selected (selection : list string) : bool :=
  match selection with
  | [] => false
  | _ :: _ => true
  end.

(** [any(x in values for x in selection)] *)
Definition facet_mask (selection : list string) (values : list string) : bool :=
  Py.any (fun x => Py.mem x values) selection.

(** One [if selection: filtered_df = filtered_df[...]]. *)
Definition apply_facet (selection : list string) (column : Row -> list string)
    (filtered_df : nat) (h : heap) : nat * heap :=
  if selected selection
  then boolean_index filtered_df (fun r => facet_mask selection (column r)) h
  else (filtered_df, h).

Definition apply_filters (ui : Session) (df : nat) (h : heap) : nat * heap :=
  let '(filtered_df, h) := copy df h in
  let '(filtered_df, h) :=
    apply_facet (selected_languages ui) (fun r => languages (base r)) filtered_df h in
  let '(filtered_df, h) :=
    apply_facet (selected_categories ui) (fun r => categories (base r)) filtered_df h in
  apply_facet (selected_projects ui) (fun r => projects (base r)) filtered_df h.

(** ** The editable table and the contact write (lines 267-311) *)

Definition table_row (r : Row) : Table.row :=
  {| Table.Developer := contributor (base r);
     Table.Category := developer_category (base r);
     Table.Total_Rewards_USD := total_rewarded_usd_amount (base r);
     Table.Pull_Requests := pr_count (base r);
     Table.Cost_per_PR_USD := cost_per_pr (base r);
     Table.Country := country_name (base r);
     Table.Contact := Some (Contact r);
     Table.Contacted := Some (Contacted r) |}.

(** The table handed to [st.data_editor]. *)
Definition developer_table (ui : Session) (filtered_df : list Row) : list Table.row :=
  let developer_table := map table_row filtered_df in
  if selected (selected_dev_categories ui)
  then List.filter (fun t => Py.mem (Table.Category t) (selected_dev_categories ui))
         developer_table
  else developer_table.

(** [edited_table[["Developer", "Contact", "Contacted"]]] *)
Definition contact_columns (t : Table.row) : Contacts.row :=
  {| Contacts.Developer := Table.Developer t;
     Contacts.Contact := Table.Contact t;
     Contacts.Contacted := Table.Contacted t |}.

(** The content of [contacts.csv] after one run of [main] on the
    loaded table [df]. *)
Definition main_contacts (ui : Session) (df : nat) (h : heap)
    (file : contacts_file) : contacts_file :=
  let '(filtered_df, h) := apply_filters ui df h in
  let edited_table := data_editor ui (developer_table ui (frame h filtered_df)) in
  if editor_in_session_state ui
  then Some (map contact_columns edited_table)
  else file.


(** ** The specification's example rows *)

Definition example_countries (code : string) : result (option Country) :=
  if String.eqb code "FR" then Ok (Some {| name := "France" |})
  else if String.eqb code "??" then Raise LookupError
  else Ok None.

Definition example_raw : list Raw.row :=
  [ {| Raw.contributor := Some "alice";
       Raw.total_rewarded_usd_amount := 500%float;
       Raw.pr_count := Some 10;
       Raw.ecosystems := Some "Starknet";
       Raw.country := Some "FR";
       Raw.languages := Some "Rust,Go";
       Raw.projects := Some "X";
       Raw.categories := Some "DeFi" |};
    {| Raw.contributor := Some "bob";
       Raw.total_rewarded_usd_amount := 200%float;
       Raw.pr_count := Some 0;
       Raw.ecosystems := Some "Starknet, Ethereum";
       Raw.country := Some " ZZ";
       Raw.languages := Some " Cairo , ,Rust,";
       Raw.projects := Some "X, Y";
       Raw.categories := Some "" |};
    {| Raw.contributor := Some "carol";
       Raw.total_rewarded_usd_amount := PrimFloat.nan;
       Raw.pr_count := None;
       Raw.ecosystems := None;
       Raw.country := None;
       Raw.languages := None;
       Raw.projects := None;
       Raw.categories := None |} ].

Definition example_contacts : contacts_file :=
  Some [ {| Contacts.Developer := Some "bob";
            Contacts.Contact := Some true;
            Contacts.Contacted := None |} ].

Definition example_df : list Row :=
  Eval vm_compute in
    match load_and_process_data example_countries example_config
            (Some example_raw) example_contacts with
    | Ok df => df
    | Raise _ => []
    end.

Definition example_row (i : nat) : Row :=
  nth i example_df
    {| base := {| contributor := None; total_rewarded_usd_amount := 0%float;
                  pr_count := 0; cost_per_pr := 0%float; developer_category := "";
                  ecosystems := None; is_starknet_exclusive := false;
                  country := ""; country_name := ""; languages := [];
                  projects := []; categories := [] |};
       Developer := None; Contact := false; Contacted := false |}.


(** ** Vocabulary of the statements *)

(** [needle] occurs in [hay] as a substring. *)
Definition occurs (needle hay : string) : Prop :=
  exists before after, hay = before +:+ needle +:+ after.

Definition comma_free (s : string) : Prop := ~ occurs "," s.


Fixpoint all_space (s : string) : Prop :=
  match s with
  | EmptyString => True
  | String c s' => Py.isspace c = true /\ all_space s'
  end.

(** Neither the first nor the last character of [t] is whitespace. *)
Definition trimmed (t : string) : Prop :=
  (forall c u, t = String c u -> Py.isspace c = false) /\
  (forall c u, t = u +:+ String c "" -> Py.isspace c = false).

(** [t] is [s] without its leading and trailing whitespace. *)
Definition is_trim (s t : string) : Prop :=
  exists leading trailing,
    s = leading +:+ t +:+ trailing /\
    all_space leading /\ all_space trailing /\ trimmed t.







(** The row the left join gives a contributor without contact entry. *)
Definition unmatched (e : Enriched) : Row :=
  {| base := e; Developer := None; Contact := false; Contacted := false |}.

(** A row whose joined key column holds the contributor identifier. *)
Definition keyed (r : Row) : Row :=
  {| base := base r; Developer := contributor (base r);
     Contact := Contact r; Contacted := Contacted r |}.


(** A CSV row; the tables of the round-trip counterexample hold it
    once and twice. *)
Definition erin : Raw.row :=
  {| Raw.contributor := Some "erin";
     Raw.total_rewarded_usd_amount := 100%float;
     Raw.pr_count := Some 4;
     Raw.ecosystems := Some "Starknet";
     Raw.country := None;
     Raw.languages := Some "Cairo";
     Raw.projects := None;
     Raw.categories := None |}.

(** One session after another: load, save the loaded table, load
    again on the same CSV. *)
Definition reload (countries_get : string -> result (option Country)) (config : Config)
    (raw_df : list Raw.row) (contacts : contacts_file) : result (list Row * list Row) :=
  let* df := load_and_process_data countries_get config (Some raw_df) contacts in
  let* df' := load_and_process_data countries_get config (Some raw_df) (save_contacts df) in
  Ok (df, df').


(** A facet lets a row through when nothing is selected, or when one
    of the selected values is among the row's values. *)
Definition facet_ok (selection values : list string) : Prop :=
  selection = [] \/ exists x, In x selection /\ In x values.

Definition facet_okb (selection values : list string) : bool :=
  negb (selected selection) || facet_mask selection values.

(** The row passes the language, the category and the project facet. *)
Definition row_selected (ui : Session) (r : Row) : Prop :=
  facet_ok (selected_languages ui) (languages (base r)) /\
  facet_ok (selected_categories ui) (categories (base r)) /\
  facet_ok (selected_projects ui) (projects (base r)).

Definition row_selectedb (ui : Session) (r : Row) : bool :=
  facet_okb (selected_languages ui) (languages (base r))
  && facet_okb (selected_categories ui) (categories (base r))
  && facet_okb (selected_projects ui) (projects (base r)).

(** Every DataFrame of [h] is a DataFrame of [h'], with the same rows. *)
Definition untouched (h h' : heap) : Prop :=
  forall ref, is_Some (h !! ref) -> h' !! ref = h !! ref.


(** The developer-category filter of the detail view lets the row
    through. *)
Definition category_selected (ui : Session) (r : Row) : Prop :=
  selected_dev_categories ui = [] \/
  In (developer_category (base r)) (selected_dev_categories ui).

(** A session on the example table: Rust selected among the
    languages, "Rising Star" among the developer categories, and a user
    who ticks [Contact] in every row shown. *)
Definition tick (t : Table.row) : Table.row :=
  {| Table.Developer := Table.Developer t;
     Table.Category := Table.Category t;
     Table.Total_Rewards_USD := Table.Total_Rewards_USD t;
     Table.Pull_Requests := Table.Pull_Requests t;
     Table.Cost_per_PR_USD := Table.Cost_per_PR_USD t;
     Table.Country := Table.Country t;
     Table.Contact := Some true;
     Table.Contacted := Table.Contacted t |}.

Definition example_ui : Session :=
  {| selected_languages := ["Rust"];
     selected_categories := [];
     selected_projects := [];
     selected_dev_categories := ["Rising Star"];
     data_editor := map tick;
     editor_in_session_state := true |}.

Definition example_heap : heap := {[ 0%nat := example_df ]}.


(** ** Widget options (lines 140-151 and 262) *)

(** [sorted(set(xs))] on strings: the distinct values in ascending
    order, strings compared character by character by code point. *)
Definition sorted_set (xs : list string) : list string :=
  merge_sort String.le (remove_dups xs).

(** [[x for xs in df[column] for x in xs]] *)
Definition column_values (column : Row -> list string) (df : list Row) : list string :=
  flat_map column df.

Definition all_languages (df : list Row) : list string :=
  sorted_set (column_values (fun r => languages (base r)) df).

Definition all_categories (df : list Row) : list string :=
  sorted_set (column_values (fun r => categories (base r)) df).

Definition all_projects (df : list Row) : list string :=
  sorted_set (column_values (fun r => projects (base r)) df).

(** Line 262: [sorted(filtered_df["developer_category"].unique())],
    the options of the developer-category filter. *)
Definition developer_category_options (filtered_df : list Row) : list string :=
  sorted_set (map (fun r => developer_category (base r)) filtered_df).


(** ** Distributions (lines 202-203 and 246-249) *)

Section ValueCounts.

Context {A : Type} `{EqDecision A}.

(** The sort by frequency inside [value_counts]. Which of two values
    with the same count comes first is pandas' choice, so the sort is a
    parameter. *)
Variable sort_values : list (A * nat) -> list (A * nat).

(** The number of rows of the column that hold [v]. *)
Definition occurrences (v : A) (column : list A) : nat :=
  length (List.filter (fun x => bool_decide (x = v)) column).

(** [column.value_counts()]: every distinct value of the column with
    the number of rows that hold it, sorted. *)
Definition value_counts (column : list A) : list (A * nat) :=
  sort_values (map (fun v => (v, occurrences v column)) (remove_dups column)).

End ValueCounts.

(** Line 202. *)
Definition category_counts (sort_values : list (string * nat) -> list (string * nat))
    (filtered_df : list Row) : list (string * nat) :=
  value_counts sort_values (map (fun r => developer_category (base r)) filtered_df).

(** Lines 246-249. *)
Definition network_dist (sort_values : list (bool * nat) -> list (bool * nat))
    (filtered_df : list Row) : list (bool * nat) :=
  value_counts sort_values (map (fun r => is_starknet_exclusive (base r)) filtered_df).

Definition network_labels (network_dist : list (bool * nat)) : list string :=
  map (fun entry : bool * nat => if fst entry then "Starknet Only" else "Multi-chain")
    network_dist.

(** A sort by descending count, for the examples. *)
Definition by_count {A : Type} (entries : list (A * nat)) : list (A * nat) :=
  @merge_sort (A * nat) (fun a b => (snd b <= snd a)%nat)
    (fun a b => decide (snd b <= snd a)%nat) entries.


(** ** Investment by language, project and category (lines 318-323,
    347-352, 395-400) *)

(** [df.explode(column)]: one row per element of the row's list, with
    the element in place of the list; a row whose list is empty is kept
    once, with a missing value. *)
Definition explode (column : Row -> list string) (df : list Row)
    : list (option string * Row) :=
  flat_map (fun r => match column r with
                     | [] => [(None, r)]
                     | x :: xs => map (fun y => (Some y, r)) (x :: xs)
                     end) df.

(** The rows of the group of [key]. *)
Definition group_rows (key : string) (exploded : list (option string * Row)) : list Row :=
  map snd (List.filter (fun entry => bool_decide (fst entry = Some key)) exploded).

(** The group keys: the distinct values, ascending; a missing value is
    no key. *)
Definition group_keys (exploded : list (option string * Row)) : list string :=
  sorted_set (omap fst exploded).

(** [df.explode(column).groupby(column).agg(...).reset_index()]; the
    aggregation of a group, sums of float64 columns among them, is the
    parameter [agg]. *)
Definition groupby_agg {V : Type} (agg : list Row -> V) (column : Row -> list string)
    (df : list Row) : list (string * V) :=
  let exploded := explode column df in
  map (fun key => (key, agg (group_rows key exploded))) (group_keys exploded).


(** ** Vocabulary of the further properties *)

(** The position of a label in the order the bands are tried. *)
Definition band_rank (label : string) : nat :=
  if String.eqb label "Beginner" then 0
  else if String.eqb label "Rising Star" then 1
  else if String.eqb label "Established Developer" then 2
  else if String.eqb label "Senior Contributor" then 3
  else 4.


(** A configuration that holds the first band only. *)
Definition beginner_only : Config :=
  {| developer_categories := {["beginner" := {["max_prs" := 5]}]} |}.

(** The entries of the contact file under the key [key]. *)
Definition entries (contacts_df : list Contacts.row) (key : option string) : list Contacts.row :=
  List.filter (fun c => key_eqb key (Contacts.Developer c)) contacts_df.

(** The row the join builds from a contributor and one of its entries. *)
Definition joined (e : Enriched) (c : Contacts.row) : Row :=
  {| base := e; Developer := Contacts.Developer c;
     Contact := fillna false (Contacts.Contact c);
     Contacted := fillna false (Contacts.Contacted c) |}.


(** The selection [wide] lets through every list of values that the
    selection [narrow] lets through. *)
Definition facet_wider (wide narrow : list string) : Prop :=
  wide = [] \/ (narrow <> [] /\ forall x, In x narrow -> In x wide).

(** The table [st.data_editor] is shown in a session on the rows
    [rows] of the loaded table. *)
Definition shown (ui : Session) (rows : list Row) : list Table.row :=
  developer_table ui (List.filter (row_selectedb ui) rows).

(** A session without any selection, whose user edits nothing. *)
Definition idle_ui : Session :=
  {| selected_languages := [];
     selected_categories := [];
     selected_projects := [];
     selected_dev_categories := [];
     data_editor := fun t => t;
     editor_in_session_state := true |}.


(** * Properties *)

(** ** Developer category *)

Example category_5 : get_developer_category example_config 5 = Ok "Beginner".
Proof. vm_compute. reflexivity. Qed.

Example category_6 : get_developer_category example_config 6 = Ok "Rising Star".
Proof. vm_compute. reflexivity. Qed.

Example category_1000 : get_developer_category example_config 1000 = Ok "Elite Developer".
Proof. vm_compute. reflexivity. Qed.

Lemma example_configured : configured example_config 5 20 50 100.
Proof. repeat split; vm_compute; reflexivity. Qed.


(** C1. With the four maxima configured, the classification of a
    non-negative [pr_count] returns one label, one of the five; the
    bands are tried in the order beginner, rising_star, established,
    senior, each with an inclusive upper bound, the first that holds
    decides, and "Elite Developer" is returned exactly when
    [pr_count] exceeds all four maxima. *)
Theorem get_developer_category_bands (config : Config) (b r e s pr_count : Z) :
  configured config b r e s ->
  0 <= pr_count ->
  exists label,
    get_developer_category config pr_count = Ok label /\
    In label labels /\
    (label = "Beginner" <-> pr_count <= b) /\
    (label = "Rising Star" <-> b < pr_count /\ pr_count <= r) /\
    (label = "Established Developer" <->
       b < pr_count /\ r < pr_count /\ pr_count <= e) /\
    (label = "Senior Contributor" <->
       b < pr_count /\ r < pr_count /\ e < pr_count /\ pr_count <= s) /\
    (label = "Elite Developer" <->
       b < pr_count /\ r < pr_count /\ e < pr_count /\ s < pr_count).
Proof.
  intros (Hb & Hr & He & Hs) _.
  unfold get_developer_category.
  rewrite Hb; cbn [bind].
  destruct (Z.leb_spec pr_count b).
  { exists "Beginner". unfold labels; cbn [In].
    repeat split; intros; try discriminate; try lia; auto. }
  rewrite Hr; cbn [bind].
  destruct (Z.leb_spec pr_count r).
  { exists "Rising Star". unfold labels; cbn [In].
    repeat split; intros; try discriminate; try lia; auto. }
  rewrite He; cbn [bind].
  destruct (Z.leb_spec pr_count e).
  { exists "Established Developer". unfold labels; cbn [In].
    repeat split; intros; try discriminate; try lia; auto. }
  rewrite Hs; cbn [bind].
  destruct (Z.leb_spec pr_count s).
  { exists "Senior Contributor". unfold labels; cbn [In].
    repeat split; intros; try discriminate; try lia; auto 6. }
  exists "Elite Developer". unfold labels; cbn [In].
  repeat split; intros; try discriminate; try lia; auto 6.
Qed.

(** The specification's example: 5, 6 and 1000 under the bands
    5, 20, 50, 100. *)
Lemma get_developer_category_bands_witness :
  (exists label, get_developer_category example_config 5 = Ok label /\ label = "Beginner") /\
  (exists label, get_developer_category example_config 6 = Ok label /\ label = "Rising Star") /\
  (exists label,
     get_developer_category example_config 1000 = Ok label /\ label = "Elite Developer").
Proof.
  split; [|split].
  - destruct (get_developer_category_bands example_config 5 20 50 100 5
                example_configured ltac:(lia))
      as (label & Hrun & _ & Hl & _).
    exists label. split; [exact Hrun | apply Hl; lia].
  - destruct (get_developer_category_bands example_config 5 20 50 100 6
                example_configured ltac:(lia))
      as (label & Hrun & _ & _ & Hl & _).
    exists label. split; [exact Hrun | apply Hl; lia].
  - destruct (get_developer_category_bands example_config 5 20 50 100 1000
                example_configured ltac:(lia))
      as (label & Hrun & _ & _ & _ & _ & _ & Hl).
    exists label. split; [exact Hrun | apply Hl; lia].
Defined.


(** ** Strings *)

Lemma app_cons (c : ascii) (s t : string) : String c s +:+ t = String c (s +:+ t).
Proof. reflexivity. Qed.

Lemma app_empty_l (s : string) : "" +:+ s = s.
Proof. reflexivity. Qed.

Lemma prefix_empty (s : string) : String.prefix "" s = true.
Proof. destruct s; reflexivity. Qed.

Lemma prefix_occurs (needle hay : string) :
  String.prefix needle hay = true <-> exists after, hay = needle +:+ after.
Proof.
  revert needle. induction hay as [|b hay IH]; intros [|a needle]; cbn.
  - split; [exists ""; reflexivity | reflexivity].
  - split; [discriminate | intros (after & H); discriminate H].
  - split; [exists (String b hay); reflexivity | reflexivity].
  - destruct (ascii_dec a b) as [->|Hab].
    + rewrite IH. split; intros (after & H); exists after.
      * rewrite app_cons, <- H. reflexivity.
      * rewrite app_cons in H. injection H as H. exact H.
    + split; [discriminate|]. intros (after & H).
      rewrite app_cons in H. injection H as H _. congruence.
Qed.

(** [in] on strings is the substring relation. *)
Lemma contains_occurs (needle hay : string) :
  Py.contains needle hay = true <-> occurs needle hay.
Proof.
  unfold occurs. induction hay as [|b hay IH]; cbn [Py.contains].
  - rewrite orb_false_r, prefix_occurs. split.
    + intros (after & H). exists "", after. exact H.
    + intros ([|c before] & after & H); [exists after; exact H | discriminate H].
  - rewrite orb_true_iff, prefix_occurs, IH. split.
    + intros [(after & H)|(before & after & H)].
      * exists "", after. exact H.
      * exists (String b before), after. rewrite app_cons, <- H. reflexivity.
    + intros ([|c before] & after & H).
      * left. exists after. exact H.
      * right. rewrite app_cons in H. injection H as _ H. exists before, after. exact H.
Qed.

Lemma contains_comma_app (s t : string) :
  Py.contains "," (s +:+ t) = Py.contains "," s || Py.contains "," t.
Proof.
  induction s as [|c s IH].
  - rewrite app_empty_l. reflexivity.
  - rewrite app_cons. cbn [Py.contains String.prefix]. rewrite IH.
    destruct (ascii_dec "," c); [|reflexivity].
    rewrite !prefix_empty. reflexivity.
Qed.

Lemma comma_free_contains (s : string) : comma_free s <-> Py.contains "," s = false.
Proof.
  unfold comma_free. rewrite <- contains_occurs.
  destruct (Py.contains "," s); split; intros H; try reflexivity; try discriminate.
  - exfalso. apply H. reflexivity.
Qed.

Lemma comma_free_app (s t : string) : comma_free (s +:+ t) <-> comma_free s /\ comma_free t.
Proof.
  rewrite !comma_free_contains, contains_comma_app, orb_false_iff. reflexivity.
Qed.

Lemma starknet_exclusive_true (x : option string) :
  starknet_exclusive x = true <->
  exists s, x = Some s /\ occurs "Starknet" s /\ comma_free s.
Proof.
  destruct x as [s|]; cbn.
  - rewrite andb_true_iff, negb_true_iff, contains_occurs, <- comma_free_contains.
    split.
    + intros [H1 H2]. exists s. auto.
    + intros (s' & [= <-] & H1 & H2). auto.
  - split; [discriminate | intros (s & H & _); discriminate H].
Qed.


(** ** Splitting and trimming *)



Lemma contains_char_cons (sep c : ascii) (s : string) :
  Py.contains (String sep "") (String c s) =
  (if ascii_dec sep c then true else false) || Py.contains (String sep "") s.
Proof.
  cbn [Py.contains String.prefix].
  destruct (ascii_dec sep c); [rewrite prefix_empty|]; reflexivity.
Qed.

Lemma split_sep_free (sep : ascii) (s : string) :
  Forall (fun piece => Py.contains (String sep "") piece = false) (Py.split sep s).
Proof.
  induction s as [|c s IH]; cbn [Py.split].
  - constructor; [reflexivity | constructor].
  - destruct (Ascii.eqb_spec c sep) as [->|Hc].
    + constructor; [reflexivity | exact IH].
    + destruct (Py.split sep s) as [|piece pieces].
      * constructor; [|constructor]. rewrite contains_char_cons.
        destruct (ascii_dec sep c); [congruence | reflexivity].
      * inversion IH as [|? ? Hpiece Hpieces]; subst.
        constructor; [|exact Hpieces]. rewrite contains_char_cons.
        destruct (ascii_dec sep c); [congruence | exact Hpiece].
Qed.


Lemma lstrip_decompose (s : string) :
  exists leading,
    s = leading +:+ Py.lstrip s /\ all_space leading /\
    (forall c u, Py.lstrip s = String c u -> Py.isspace c = false).
Proof.
  induction s as [|a s (leading & Hs & Hsp & Hhead)].
  - exists "". repeat split. discriminate.
  - cbn [Py.lstrip]. destruct (Py.isspace a) eqn:Ha.
    + exists (String a leading). rewrite app_cons, <- Hs. repeat split; assumption.
    + exists "". repeat split. intros c u [= <- _]. exact Ha.
Qed.

Lemma rstrip_decompose (s : string) :
  exists trailing,
    s = Py.rstrip s +:+ trailing /\ all_space trailing /\
    (forall c u, Py.rstrip s = u +:+ String c "" -> Py.isspace c = false).
Proof.
  induction s as [|a s (trailing & Hs & Hsp & Hlast)].
  - exists "". repeat split. intros c [|b u] H; discriminate H.
  - cbn [Py.rstrip]. cbv zeta.
    destruct (Py.isspace a && Py.is_empty (Py.rstrip s)) eqn:Hcond.
    + apply andb_true_iff in Hcond as [Ha Hempty].
      destruct (Py.rstrip s); [|discriminate].
      exists (String a s). repeat split.
      * exact Ha.
      * rewrite Hs. exact Hsp.
      * intros c [|b u] H; discriminate H.
    + exists trailing. rewrite app_cons, <- Hs. repeat split; [exact Hsp|].
      intros c [|b u] H.
      * rewrite app_empty_l in H. injection H as <- Ht.
        rewrite Ht in Hcond. cbn in Hcond. rewrite andb_true_r in Hcond. exact Hcond.
      * rewrite app_cons in H. injection H as _ H. exact (Hlast c u H).
Qed.

Lemma strip_is_trim (s : string) : is_trim s (Py.strip s).
Proof.
  unfold Py.strip.
  destruct (lstrip_decompose s) as (leading & Hs & Hleading & Hhead).
  destruct (rstrip_decompose (Py.lstrip s)) as (trailing & Ht & Htrailing & Hlast).
  exists leading, trailing. split; [rewrite <- Ht; exact Hs|].
  split; [exact Hleading|]. split; [exact Htrailing|].
  split; [|exact Hlast].
  intros c u Hc. rewrite Hc, app_cons in Ht. exact (Hhead c _ Ht).
Qed.

Lemma map_filter_comm {A B : Type} (f : A -> B) (p : B -> bool) (xs : list A) :
  map f (List.filter (fun x => p (f x)) xs) = List.filter p (map f xs).
Proof.
  induction xs as [|x xs IH]; [reflexivity|].
  cbn. destruct (p (f x)); cbn; rewrite IH; reflexivity.
Qed.





(** ** The pipeline, row by row *)

Lemma map_result_In {A B : Type} (f : A -> result B) (xs : list A) (ys : list B) (y : B) :
  map_result f xs = Ok ys -> In y ys -> exists x, In x xs /\ f x = Ok y.
Proof.
  revert ys. induction xs as [|x xs IH]; intros ys Hrun Hy; cbn in Hrun.
  - injection Hrun as <-. destruct Hy.
  - destruct (f x) as [y0|] eqn:Hfx; cbn in Hrun; [|discriminate].
    destruct (map_result f xs) as [ys0|] eqn:Hxs; cbn in Hrun; [|discriminate].
    injection Hrun as <-. destruct Hy as [<-|Hy].
    + exists x. split; [left; reflexivity | exact Hfx].
    + destruct (IH ys0 eq_refl Hy) as (x' & Hin & Hx').
      exists x'. split; [right; exact Hin | exact Hx'].
Qed.

Lemma merge_row_base (contacts_df : list Contacts.row) (e : Enriched) (r : Row) :
  In r (merge_row contacts_df e) -> base r = e.
Proof.
  unfold merge_row.
  destruct (List.filter _ contacts_df) as [|c cs].
  - intros [<-|[]]. reflexivity.
  - intros Hr. apply in_map_iff in Hr as (c' & <- & _). reflexivity.
Qed.

Lemma merge_contacts_base (df : list Enriched) (contacts_df : list Contacts.row) (r : Row) :
  In r (merge_contacts df contacts_df) -> In (base r) df.
Proof.
  unfold merge_contacts. intros Hr.
  apply in_flat_map in Hr as (e & He & Hr).
  apply merge_row_base in Hr. rewrite Hr. exact He.
Qed.

Section Rows.

Variable countries_get : string -> result (option Country).
Variable config : Config.
Variable raw_df : list Raw.row.
Variable contacts : contacts_file.
Variable df : list Row.

Hypothesis loaded :
  load_and_process_data countries_get config (Some raw_df) contacts = Ok df.

(** Every row of the result is the enrichment of a row of the CSV. *)
Lemma row_origin (r : Row) :
  In r df -> exists raw, In raw raw_df /\ enrich countries_get config raw = Ok (base r).
Proof.
  intros Hr. unfold load_and_process_data in loaded.
  destruct (map_result _ raw_df) as [enriched|] eqn:Hmap; cbn in loaded; [|discriminate].
  injection loaded as <-.
  apply merge_contacts_base in Hr.
  exact (map_result_In _ _ _ _ Hmap Hr).
Qed.

Lemma enrich_Ok (raw : Raw.row) (e : Enriched) :
  enrich countries_get config raw = Ok e ->
  exists category,
    get_developer_category config (fillna 0 (Raw.pr_count raw)) = Ok category /\
    e = {| contributor := Raw.contributor raw;
           total_rewarded_usd_amount := fillna_float (Raw.total_rewarded_usd_amount raw);
           pr_count := fillna 0 (Raw.pr_count raw);
           cost_per_pr :=
             np_where_cost (fillna_float (Raw.total_rewarded_usd_amount raw))
               (fillna 0 (Raw.pr_count raw));
           developer_category := category;
           ecosystems := Raw.ecosystems raw;
           is_starknet_exclusive := starknet_exclusive (Raw.ecosystems raw);
           country := fillna "Unknown" (Raw.country raw);
           country_name := country_code_to_name countries_get (fillna "Unknown" (Raw.country raw));
           languages := list_column (Raw.languages raw);
           projects := list_column (Raw.projects raw);
           categories := list_column (Raw.categories raw) |}.
Proof.
  unfold enrich. intros H.
  destruct (get_developer_category config _) as [category|]; cbn in H; [|discriminate].
  injection H as <-. exists category. split; reflexivity.
Qed.

(** The flag of a row is the lambda of line 59 on the row's own
    [ecosystems]. *)
Lemma row_starknet (r : Row) :
  In r df -> is_starknet_exclusive (base r) = starknet_exclusive (ecosystems (base r)).
Proof.
  intros Hr. destruct (row_origin r Hr) as (raw & _ & Henrich).
  apply enrich_Ok in Henrich as (category & _ & ->). reflexivity.
Qed.

(** C3. In every row whose [ecosystems] is a string, the flag
    [is_starknet_exclusive] is true exactly when "Starknet" occurs in
    the string and no comma does. *)
Theorem starknet_exclusive_rows (r : Row) (s : string) :
  In r df ->
  ecosystems (base r) = Some s ->
  (is_starknet_exclusive (base r) = true <-> occurs "Starknet" s /\ comma_free s).
Proof.
  intros Hr Hs. rewrite (row_starknet r Hr), starknet_exclusive_true, Hs. split.
  - intros (s' & [= <-] & H). exact H.
  - intros H. exists s. split; [reflexivity | exact H].
Qed.

(** C2, amended. The flag is true when [ecosystems] is exactly
    "Starknet"; and it is true exactly when [ecosystems] is a string
    made of "Starknet" (in this spelling) with text before and after it
    that holds no comma. The surrounding text need not be empty. *)
Theorem starknet_exact_rows (r : Row) :
  In r df ->
  (ecosystems (base r) = Some "Starknet" -> is_starknet_exclusive (base r) = true) /\
  (is_starknet_exclusive (base r) = true <->
   exists before after,
     ecosystems (base r) = Some (before +:+ "Starknet" +:+ after) /\
     comma_free before /\ comma_free after).
Proof.
  intros Hr. rewrite (row_starknet r Hr).
  assert (Hiff : starknet_exclusive (ecosystems (base r)) = true <->
                 exists before after,
                   ecosystems (base r) = Some (before +:+ "Starknet" +:+ after) /\
                   comma_free before /\ comma_free after).
  { rewrite starknet_exclusive_true. split.
    - intros (s & Hs & (before & after & ->) & Hfree).
      apply comma_free_app in Hfree as [Hb Hfree].
      apply comma_free_app in Hfree as [_ Ha].
      exists before, after. auto.
    - intros (before & after & Hs & Hb & Ha).
      exists (before +:+ "Starknet" +:+ after). split; [exact Hs|]. split.
      + exists before, after. reflexivity.
      + apply comma_free_app. split; [exact Hb|].
        apply comma_free_app. split; [|exact Ha].
        apply comma_free_contains. reflexivity. }
  split; [|exact Hiff].
  intros Hs. apply Hiff. exists "", "". split; [exact Hs|].
  split; apply comma_free_contains; reflexivity.
Qed.





End Rows.

Lemma example_loaded :
  load_and_process_data example_countries example_config (Some example_raw)
    example_contacts = Ok example_df.
Proof. vm_compute. reflexivity. Qed.



(** The first example row has [ecosystems] "Starknet". *)
Lemma starknet_exclusive_rows_witness :
  In (example_row 0) example_df /\
  ecosystems (base (example_row 0)) = Some "Starknet" /\
  (is_starknet_exclusive (base (example_row 0)) = true <->
   occurs "Starknet" "Starknet" /\ comma_free "Starknet").
Proof.
  assert (H0 : In (example_row 0) example_df) by (left; reflexivity).
  split; [exact H0|]. split; [reflexivity|].
  exact (starknet_exclusive_rows _ _ _ _ _ example_loaded (example_row 0) "Starknet"
           H0 eq_refl).
Defined.

(** C2 as stated fails: a row whose [ecosystems] is
    "Starknet Foundation" is flagged although the field is not
    "Starknet". *)
Lemma starknet_exact_counterexample :
  match
    load_and_process_data example_countries example_config
      (Some [ {| Raw.contributor := Some "dave";
                 Raw.total_rewarded_usd_amount := 0%float;
                 Raw.pr_count := Some 1;
                 Raw.ecosystems := Some "Starknet Foundation";
                 Raw.country := None;
                 Raw.languages := None;
                 Raw.projects := None;
                 Raw.categories := None |} ]) None
  with
  | Ok [r] =>
      is_starknet_exclusive (base r) = true /\
      ecosystems (base r) = Some "Starknet Foundation" /\
      ecosystems (base r) <> Some "Starknet"
  | _ => False
  end.
Proof. vm_compute. repeat split. discriminate. Qed.

Lemma starknet_exact_rows_witness :
  In (example_row 0) example_df /\
  is_starknet_exclusive (base (example_row 0)) = true.
Proof.
  assert (H0 : In (example_row 0) example_df) by (left; reflexivity).
  split; [exact H0|].
  exact (proj1 (starknet_exact_rows _ _ _ _ _ example_loaded (example_row 0) H0) eq_refl).
Defined.


(** ** Country names *)





Example country_name_examples :
  map (fun r => country_name (base r)) example_df = ["France"; "Unknown"; "Unknown"] /\
  country_code_to_name example_countries " FR " = "France" /\
  country_code_to_name example_countries "??" = "Unknown".
Proof. repeat split. Qed.



(** ** List columns *)

Example list_column_examples :
  list_column (Some "Rust,Go") = ["Rust"; "Go"] /\
  list_column (Some " Cairo , ,Rust,") = ["Cairo"; "Rust"] /\
  list_column (Some "") = [] /\
  list_column None = [] /\
  Py.split "," "a,,b," = ["a"; ""; "b"; ""].
Proof. repeat split. Qed.



(** ** The contact join *)

Lemma filter_none {A : Type} (p : A -> bool) (xs : list A) :
  (forall x, In x xs -> p x = false) -> List.filter p xs = [].
Proof.
  induction xs as [|x xs IH]; intros Hp; [reflexivity|].
  cbn. rewrite (Hp x (or_introl eq_refl)). apply IH.
  intros x' Hx'. apply Hp. right. exact Hx'.
Qed.

Lemma filter_all {A : Type} (p : A -> bool) (xs : list A) :
  (forall x, In x xs -> p x = true) -> List.filter p xs = xs.
Proof.
  induction xs as [|x xs IH]; intros Hp; [reflexivity|].
  cbn. rewrite (Hp x (or_introl eq_refl)). f_equal. apply IH.
  intros x' Hx'. apply Hp. right. exact Hx'.
Qed.

Lemma filter_map_comm {A B : Type} (f : A -> B) (p : B -> bool) (xs : list A) :
  List.filter p (map f xs) = map f (List.filter (fun x => p (f x)) xs).
Proof. symmetry. apply map_filter_comm. Qed.

Lemma key_eqb_true (a b : option string) : key_eqb a b = true <-> a = b.
Proof. unfold key_eqb. apply bool_decide_eq_true. Qed.

Lemma key_eqb_false (a b : option string) : key_eqb a b = false <-> a <> b.
Proof. unfold key_eqb. apply bool_decide_eq_false. Qed.

Lemma merge_row_unmatched (contacts_df : list Contacts.row) (e : Enriched) :
  (forall c, In c contacts_df -> Contacts.Developer c <> contributor e) ->
  merge_row contacts_df e = [unmatched e].
Proof.
  intros Hnone. unfold merge_row. rewrite filter_none; [reflexivity|].
  intros c Hc. apply key_eqb_false. intros Heq. exact (Hnone c Hc (eq_sym Heq)).
Qed.

Lemma merge_row_nonempty (contacts_df : list Contacts.row) (e : Enriched) :
  exists r rs, merge_row contacts_df e = r :: rs.
Proof.
  unfold merge_row. destruct (List.filter _ contacts_df) as [|c cs]; cbn; eauto.
Qed.







(** ** Saving and reloading the contacts *)

Lemma map_result_map {A B C : Type} (f : A -> result B) (g : A -> C) (g' : B -> C)
    (xs : list A) (ys : list B) :
  (forall x y, f x = Ok y -> g' y = g x) ->
  map_result f xs = Ok ys -> map g' ys = map g xs.
Proof.
  intros Hg. revert ys. induction xs as [|x xs IH]; intros ys Hrun; cbn in Hrun.
  - injection Hrun as <-. reflexivity.
  - destruct (f x) as [y|] eqn:Hfx; cbn in Hrun; [|discriminate].
    destruct (map_result f xs) as [ys0|]; cbn in Hrun; [|discriminate].
    injection Hrun as <-. cbn. rewrite (Hg x y Hfx), (IH ys0 eq_refl). reflexivity.
Qed.

Lemma flat_map_map {A B C : Type} (f : A -> list B) (g : B -> C) (xs : list A) :
  map g (flat_map f xs) = flat_map (fun x => map g (f x)) xs.
Proof.
  induction xs as [|x xs IH]; [reflexivity|].
  cbn. rewrite map_app, IH. reflexivity.
Qed.

Lemma flat_map_ext_in {A B : Type} (f g : A -> list B) (xs : list A) :
  (forall x, In x xs -> f x = g x) -> flat_map f xs = flat_map g xs.
Proof.
  induction xs as [|x xs IH]; intros Hfg; [reflexivity|].
  cbn. rewrite (Hfg x (or_introl eq_refl)), IH; [reflexivity|].
  intros x' Hx'. apply Hfg. right. exact Hx'.
Qed.

(** With distinct identifiers, the rows of the join that carry the
    identifier of [e] are the rows [e] was joined into. *)
Lemma merge_contacts_select (contacts_df : list Contacts.row) (df : list Enriched)
    (e : Enriched) :
  List.NoDup (map contributor df) ->
  In e df ->
  List.filter (fun r => key_eqb (contributor e) (contributor (base r)))
    (merge_contacts df contacts_df)
  = merge_row contacts_df e.
Proof.
  unfold merge_contacts. induction df as [|e0 df IH]; intros Hnodup He; [destruct He|].
  cbn [map flat_map] in *. apply List.NoDup_cons_iff in Hnodup as [Hfresh Hnodup].
  rewrite List.filter_app. destruct He as [->|He].
  - rewrite filter_all, filter_none.
    + apply app_nil_r.
    + intros r Hr. apply key_eqb_false. intros Heq. apply Hfresh.
      rewrite Heq. apply in_map. exact (merge_contacts_base _ _ _ Hr).
    + intros r Hr. apply key_eqb_true. rewrite (merge_row_base _ _ _ Hr). reflexivity.
  - rewrite filter_none.
    + cbn. apply IH; assumption.
    + intros r Hr. apply key_eqb_false. intros Heq. apply Hfresh.
      rewrite (merge_row_base _ _ _ Hr) in Heq. rewrite <- Heq.
      apply in_map. exact He.
Qed.

Lemma merge_contacts_saved (contacts_df : list Contacts.row) (df : list Enriched) :
  List.NoDup (map contributor df) ->
  merge_contacts df (read_contacts (save_contacts (merge_contacts df contacts_df)))
  = map keyed (merge_contacts df contacts_df).
Proof.
  intros Hnodup. cbn [save_contacts read_contacts].
  unfold merge_contacts at 1 3. rewrite flat_map_map.
  apply flat_map_ext_in. intros e He.
  unfold merge_row at 1. rewrite filter_map_comm. cbn [Contacts.Developer].
  rewrite (merge_contacts_select contacts_df df e Hnodup He).
  destruct (merge_row_nonempty contacts_df e) as (r & rs & Hrow).
  pose proof (merge_row_base contacts_df e) as Hbase.
  rewrite Hrow in *. cbn [map]. rewrite map_map. cbn [map].
  f_equal.
  - unfold keyed. rewrite (Hbase r (or_introl eq_refl)). reflexivity.
  - apply map_ext_in. intros r' Hr'. unfold keyed.
    rewrite (Hbase r' (or_intror Hr')). reflexivity.
Qed.

(** C6, amended. When the contributor identifiers of the CSV are
    pairwise distinct, saving the loaded table and loading again on the
    same CSV returns the same rows in the same order, with the same
    enriched columns and the same [Contact] and [Contacted]; the joined
    key column [Developer] then holds the contributor identifier in
    every row, also where it was missing before; and saving that table
    writes the same file again. *)
Theorem contacts_round_trip (countries_get : string -> result (option Country))
    (config : Config) (raw_df : list Raw.row) (contacts : contacts_file) (df : list Row) :
  List.NoDup (map Raw.contributor raw_df) ->
  load_and_process_data countries_get config (Some raw_df) contacts = Ok df ->
  load_and_process_data countries_get config (Some raw_df) (save_contacts df)
    = Ok (map keyed df) /\
  map (fun r => (contributor (base r), Contact r, Contacted r)) (map keyed df)
    = map (fun r => (contributor (base r), Contact r, Contacted r)) df /\
  save_contacts (map keyed df) = save_contacts df.
Proof.
  intros Hnodup Hload. unfold load_and_process_data in *.
  destruct (map_result _ raw_df) as [enriched|] eqn:Hmap; cbn in Hload; [|discriminate].
  injection Hload as <-. cbn [bind].
  assert (Hkeys : map contributor enriched = map Raw.contributor raw_df).
  { apply (map_result_map (enrich countries_get config)); [|exact Hmap].
    intros raw e He. apply enrich_Ok in He as (category & _ & ->). reflexivity. }
  split; [|split].
  - rewrite merge_contacts_saved; [reflexivity|]. rewrite Hkeys. exact Hnodup.
  - rewrite map_map. reflexivity.
  - unfold save_contacts. rewrite map_map. reflexivity.
Qed.

Lemma example_distinct : List.NoDup (map Raw.contributor example_raw).
Proof.
  cbn. repeat constructor; cbn; intros H;
    repeat (destruct H as [H|H]; [discriminate H|]); exact H.
Qed.

Lemma contacts_round_trip_witness :
  List.NoDup (map Raw.contributor example_raw) /\
  load_and_process_data example_countries example_config (Some example_raw)
    (save_contacts example_df) = Ok (map keyed example_df) /\
  map (fun r => (contributor (base r), Contact r, Contacted r)) (map keyed example_df)
    = map (fun r => (contributor (base r), Contact r, Contacted r)) example_df /\
  save_contacts (map keyed example_df) = save_contacts example_df.
Proof.
  split; [exact example_distinct|].
  exact (contacts_round_trip example_countries example_config example_raw example_contacts
           example_df example_distinct example_loaded).
Defined.

(** C6 as stated fails. With the identifier "erin" on two rows of the
    CSV and no contact file, the first load gives 2 rows and the load
    after saving gives 4. With "erin" on one row, the reloaded table
    differs from the saved one in the joined key column. *)
Lemma contacts_round_trip_counterexample :
  match reload example_countries example_config [erin; erin] None with
  | Ok (df, df') => length df = 2%nat /\ length df' = 4%nat /\ df' <> df
  | Raise _ => False
  end /\
  match reload example_countries example_config [erin] None with
  | Ok (df, df') =>
      map Developer df = [None] /\ map Developer df' = [Some "erin"] /\ df' <> df
  | Raise _ => False
  end.
Proof.
  vm_compute. repeat split; try discriminate.
Qed.


(** ** DataFrame objects and the facet filters *)

Lemma untouched_refl (h : heap) : untouched h h.
Proof. intros ref _. reflexivity. Qed.

Lemma untouched_trans (h1 h2 h3 : heap) :
  untouched h1 h2 -> untouched h2 h3 -> untouched h1 h3.
Proof.
  intros H12 H23 ref Href. rewrite <- (H12 ref Href). apply H23.
  rewrite (H12 ref Href). exact Href.
Qed.

Lemma untouched_frame (h h' : heap) (ref : nat) :
  untouched h h' -> is_Some (h !! ref) -> frame h' ref = frame h ref.
Proof.
  intros Hu Href. unfold frame. rewrite !lookup_total_alt, (Hu ref Href). reflexivity.
Qed.

Lemma new_frame_spec (rows : list Row) (h : heap) :
  untouched h (new_frame rows h).2 /\
  is_Some ((new_frame rows h).2 !! (new_frame rows h).1) /\
  frame (new_frame rows h).2 (new_frame rows h).1 = rows.
Proof.
  unfold new_frame, frame. cbn [fst snd]. split; [|split].
  - intros ref Href. apply lookup_insert_ne. intros Heq.
    apply (is_fresh (dom h)). rewrite Heq. apply elem_of_dom. exact Href.
  - rewrite lookup_insert_eq. eauto.
  - rewrite lookup_total_alt, lookup_insert_eq. reflexivity.
Qed.

Lemma facet_mask_true (selection values : list string) :
  facet_mask selection values = true <-> exists x, In x selection /\ In x values.
Proof.
  unfold facet_mask, Py.any, Py.mem. rewrite existsb_exists. split.
  - intros (x & Hx & Hmem). apply existsb_exists in Hmem as (y & Hy & Heq).
    apply String.eqb_eq in Heq as ->. eauto.
  - intros (x & Hx & Hv). exists x. split; [exact Hx|].
    apply existsb_exists. exists x. split; [exact Hv | apply String.eqb_refl].
Qed.

Lemma facet_okb_true (selection values : list string) :
  facet_okb selection values = true <-> facet_ok selection values.
Proof.
  unfold facet_okb, facet_ok. rewrite orb_true_iff, facet_mask_true.
  destruct selection as [|x selection]; cbn.
  - split; auto.
  - split; intros [H|H]; try discriminate; auto.
Qed.

Lemma row_selectedb_true (ui : Session) (r : Row) :
  row_selectedb ui r = true <-> row_selected ui r.
Proof.
  unfold row_selectedb, row_selected.
  rewrite !andb_true_iff, !facet_okb_true. tauto.
Qed.

Lemma filter_filter {A : Type} (p q : A -> bool) (xs : list A) :
  List.filter q (List.filter p xs) = List.filter (fun x => p x && q x) xs.
Proof.
  induction xs as [|x xs IH]; [reflexivity|].
  cbn. destruct (p x); cbn; [destruct (q x)|]; rewrite IH; reflexivity.
Qed.

Lemma apply_facet_spec (selection : list string) (column : Row -> list string)
    (filtered_df : nat) (h : heap) :
  is_Some (h !! filtered_df) ->
  untouched h (apply_facet selection column filtered_df h).2 /\
  is_Some ((apply_facet selection column filtered_df h).2
             !! (apply_facet selection column filtered_df h).1) /\
  frame (apply_facet selection column filtered_df h).2
        (apply_facet selection column filtered_df h).1
  = List.filter (fun r => facet_okb selection (column r)) (frame h filtered_df).
Proof.
  intros Href. unfold apply_facet, facet_okb.
  destruct (selected selection); cbn [negb orb fst snd].
  - apply new_frame_spec.
  - split; [apply untouched_refl|]. split; [exact Href|].
    symmetry. apply filter_all. reflexivity.
Qed.

Lemma apply_filters_spec (ui : Session) (df : nat) (h : heap) :
  is_Some (h !! df) ->
  untouched h (apply_filters ui df h).2 /\
  is_Some ((apply_filters ui df h).2 !! (apply_filters ui df h).1) /\
  frame (apply_filters ui df h).2 (apply_filters ui df h).1
  = List.filter (row_selectedb ui) (frame h df).
Proof.
  intros Hdf. unfold apply_filters.
  pose proof (new_frame_spec (frame h df) h) as (U0 & S0 & F0).
  unfold copy. destruct (new_frame (frame h df) h) as [ref0 h0]. cbn [fst snd] in *.
  pose proof (apply_facet_spec (selected_languages ui) (fun r => languages (base r))
                ref0 h0 S0) as (U1 & S1 & F1).
  destruct (apply_facet (selected_languages ui) _ ref0 h0) as [ref1 h1].
  cbn [fst snd] in *.
  pose proof (apply_facet_spec (selected_categories ui) (fun r => categories (base r))
                ref1 h1 S1) as (U2 & S2 & F2).
  destruct (apply_facet (selected_categories ui) _ ref1 h1) as [ref2 h2].
  cbn [fst snd] in *.
  pose proof (apply_facet_spec (selected_projects ui) (fun r => projects (base r))
                ref2 h2 S2) as (U3 & S3 & F3).
  destruct (apply_facet (selected_projects ui) _ ref2 h2) as [ref3 h3].
  cbn [fst snd] in *.
  split; [|split].
  - eauto using untouched_trans.
  - exact S3.
  - rewrite F3, F2, F1, F0, !filter_filter. apply List.filter_ext.
    intros r. unfold row_selectedb. rewrite andb_assoc. reflexivity.
Qed.

(** C5. Run on a loaded table, the facet filters return a DataFrame
    holding exactly the rows of the table, in order, that pass every
    facet: a facet with nothing selected lets every row through, a
    facet with a selection lets through the rows that share a value
    with it. The table and every other DataFrame keep their rows, and
    filtering the result again with the same selections gives the same
    rows. *)
Theorem facet_filters (ui : Session) (df : nat) (h : heap) :
  is_Some (h !! df) ->
  let filtered_df := (apply_filters ui df h).1 in
  let h' := (apply_filters ui df h).2 in
  frame h' filtered_df = List.filter (row_selectedb ui) (frame h df) /\
  (forall r, In r (frame h' filtered_df) <-> In r (frame h df) /\ row_selected ui r) /\
  frame h' df = frame h df /\
  untouched h h' /\
  frame (apply_filters ui filtered_df h').2 (apply_filters ui filtered_df h').1
  = frame h' filtered_df.
Proof.
  intros Hdf. cbv zeta.
  destruct (apply_filters_spec ui df h Hdf) as (U & S & F).
  split; [exact F|]. split; [|split; [|split]].
  - intros r. rewrite F, filter_In, row_selectedb_true. reflexivity.
  - apply untouched_frame; assumption.
  - exact U.
  - destruct (apply_filters_spec ui _ _ S) as (_ & _ & F').
    rewrite F', F, filter_filter. apply List.filter_ext.
    intros r. apply andb_diag.
Qed.


Lemma example_heap_df : is_Some (example_heap !! 0%nat).
Proof. exists example_df. reflexivity. Qed.

Lemma facet_filters_witness :
  is_Some (example_heap !! 0%nat) /\
  frame (apply_filters example_ui 0%nat example_heap).2
        (apply_filters example_ui 0%nat example_heap).1
  = [example_row 0; example_row 1] /\
  frame (apply_filters example_ui 0%nat example_heap).2 0%nat = example_df.
Proof.
  split; [exact example_heap_df|].
  destruct (facet_filters example_ui 0%nat example_heap example_heap_df)
    as (Hrows & _ & Hkept & _).
  split.
  - rewrite Hrows. reflexivity.
  - rewrite Hkept. reflexivity.
Defined.

(** ** The contact write *)

Lemma mem_true (x : string) (xs : list string) : Py.mem x xs = true <-> In x xs.
Proof.
  unfold Py.mem. rewrite existsb_exists. split.
  - intros (y & Hy & Heq). apply String.eqb_eq in Heq as ->. exact Hy.
  - intros Hx. exists x. split; [exact Hx | apply String.eqb_refl].
Qed.

Lemma developer_table_In (ui : Session) (rows : list Row) (t : Table.row) :
  In t (developer_table ui rows) <->
  exists r, In r rows /\ category_selected ui r /\ t = table_row r.
Proof.
  unfold developer_table, category_selected.
  destruct (selected_dev_categories ui) as [|x xs] eqn:Hsel; cbn [selected].
  - rewrite in_map_iff. split.
    + intros (r & <- & Hr). exists r. auto.
    + intros (r & Hr & _ & ->). exists r. auto.
  - rewrite filter_In, in_map_iff, mem_true. split.
    + intros ((r & <- & Hr) & Hcat). exists r. cbn in Hcat. auto.
    + intros (r & Hr & [Hnil|Hcat] & ->); [discriminate Hnil|].
      split; [exists r; auto | exact Hcat].
Qed.

(** C10. When the editor's key is in the session state, the file
    written is the (Developer, Contact, Contacted) columns of the table
    the editor returns for the table it was shown; the table shown
    holds the rows of the loaded table that pass the language, category
    and project facets and the developer-category filter. Hence, when
    the user's edits add no developer, a contributor whose rows are all
    filtered out has no row in the written file. *)
Theorem edit_writes_shown_table (ui : Session) (df : nat) (h : heap) (file : contacts_file) :
  is_Some (h !! df) ->
  editor_in_session_state ui = true ->
  let shown := developer_table ui (List.filter (row_selectedb ui) (frame h df)) in
  let written := map contact_columns (data_editor ui shown) in
  main_contacts ui df h file = Some written /\
  (forall t, In t shown <->
     exists r, In r (frame h df) /\ row_selected ui r /\ category_selected ui r /\
               t = table_row r) /\
  (forall who,
     (forall r, In r (frame h df) -> contributor (base r) = who ->
                ~ (row_selected ui r /\ category_selected ui r)) ->
     (forall t, In t (data_editor ui shown) ->
                exists t', In t' shown /\ Table.Developer t' = Table.Developer t) ->
     forall c, In c written -> Contacts.Developer c <> who).
Proof.
  intros Hdf Hkey. cbv zeta.
  assert (Hshown : forall t,
    In t (developer_table ui (List.filter (row_selectedb ui) (frame h df))) <->
    exists r, In r (frame h df) /\ row_selected ui r /\ category_selected ui r /\
              t = table_row r).
  { intros t. rewrite developer_table_In. split.
    - intros (r & Hr & Hcat & ->). apply filter_In in Hr as [Hr Hsel].
      apply row_selectedb_true in Hsel. exists r. auto.
    - intros (r & Hr & Hsel & Hcat & ->). exists r. split; [|auto].
      apply filter_In. split; [exact Hr | apply row_selectedb_true; exact Hsel]. }
  split; [|split; [exact Hshown|]].
  - unfold main_contacts.
    destruct (apply_filters_spec ui df h Hdf) as (_ & _ & F).
    destruct (apply_filters ui df h) as [filtered_df h']. cbn [fst snd] in F.
    rewrite F, Hkey. reflexivity.
  - intros who Hout Hedits c Hc Hwho.
    apply in_map_iff in Hc as (t & <- & Ht).
    destruct (Hedits t Ht) as (t' & Ht' & Hdev).
    apply Hshown in Ht' as (r & Hr & Hsel & Hcat & ->).
    apply (Hout r Hr); [|auto].
    cbn in Hdev, Hwho. congruence.
Qed.

(** On the example, Rust and "Rising Star" leave only alice in the
    editor: the file written holds her row alone, and the entry bob had
    in the file before is gone. *)
Lemma edit_writes_shown_table_witness :
  is_Some (example_heap !! 0%nat) /\
  editor_in_session_state example_ui = true /\
  main_contacts example_ui 0%nat example_heap example_contacts
  = Some [ {| Contacts.Developer := Some "alice";
              Contacts.Contact := Some true;
              Contacts.Contacted := Some false |} ].
Proof.
  split; [exact example_heap_df|]. split; [reflexivity|].
  destruct (edit_writes_shown_table example_ui 0%nat example_heap example_contacts
              example_heap_df eq_refl) as (Hwrite & _).
  rewrite Hwrite. reflexivity.
Defined.


(** * Further properties *)

(** ** Classification: errors and order *)

Lemma get_developer_category_configured (config : Config) (b r e s pr_count : Z) :
  configured config b r e s ->
  get_developer_category config pr_count =
  Ok (if pr_count <=? b then "Beginner"
      else if pr_count <=? r then "Rising Star"
      else if pr_count <=? e then "Established Developer"
      else if pr_count <=? s then "Senior Contributor"
      else "Elite Developer").
Proof.
  intros (Hb & Hr & He & Hs). unfold get_developer_category.
  rewrite Hb; cbn [bind]. destruct (pr_count <=? b); [reflexivity|].
  rewrite Hr; cbn [bind]. destruct (pr_count <=? r); [reflexivity|].
  rewrite He; cbn [bind]. destruct (pr_count <=? e); [reflexivity|].
  rewrite Hs; cbn [bind]. destruct (pr_count <=? s); reflexivity.
Qed.


(** X1. A band that is not configured raises [KeyError] only for the
    pull-request counts that reach it: the counts within an earlier
    band are still classified, every larger count raises the error of
    the first band that is missing. *)
Theorem missing_band_raises_lazily (config : Config) (pr_count : Z) (err : exn) :
  let categories := developer_categories config in
  (max_prs categories "beginner" = Raise err ->
   get_developer_category config pr_count = Raise err) /\
  (forall b, max_prs categories "beginner" = Ok b ->
     max_prs categories "rising_star" = Raise err ->
     get_developer_category config pr_count
     = if pr_count <=? b then Ok "Beginner" else Raise err) /\
  (forall b r, max_prs categories "beginner" = Ok b ->
     max_prs categories "rising_star" = Ok r ->
     max_prs categories "established" = Raise err ->
     get_developer_category config pr_count
     = if pr_count <=? b then Ok "Beginner"
       else if pr_count <=? r then Ok "Rising Star" else Raise err) /\
  (forall b r e, max_prs categories "beginner" = Ok b ->
     max_prs categories "rising_star" = Ok r ->
     max_prs categories "established" = Ok e ->
     max_prs categories "senior" = Raise err ->
     get_developer_category config pr_count
     = if pr_count <=? b then Ok "Beginner"
       else if pr_count <=? r then Ok "Rising Star"
       else if pr_count <=? e then Ok "Established Developer" else Raise err).
Proof.
  cbv zeta. unfold get_developer_category. repeat split.
  - intros ->. reflexivity.
  - intros b -> Hr. cbn [bind]. destruct (pr_count <=? b); [reflexivity|].
    rewrite Hr. reflexivity.
  - intros b r -> -> He. cbn [bind]. destruct (pr_count <=? b); [reflexivity|].
    destruct (pr_count <=? r); [reflexivity|]. rewrite He. reflexivity.
  - intros b r e -> -> -> Hs. cbn [bind]. destruct (pr_count <=? b); [reflexivity|].
    destruct (pr_count <=? r); [reflexivity|].
    destruct (pr_count <=? e); [reflexivity|]. rewrite Hs. reflexivity.
Qed.

Lemma missing_band_raises_lazily_witness :
  get_developer_category beginner_only 3 = Ok "Beginner" /\
  get_developer_category beginner_only 6 = Raise (KeyError "rising_star").
Proof.
  destruct (missing_band_raises_lazily beginner_only 3 (KeyError "rising_star"))
    as (_ & H3 & _).
  destruct (missing_band_raises_lazily beginner_only 6 (KeyError "rising_star"))
    as (_ & H6 & _).
  split.
  - exact (H3 5 eq_refl eq_refl).
  - exact (H6 5 eq_refl eq_refl).
Defined.

(** X2. Whatever the four maxima are, ascending or not, a contributor
    with more pull requests is never placed in an earlier band. *)
Theorem category_monotone (config : Config) (b r e s p q : Z) (lp lq : string) :
  configured config b r e s ->
  p <= q ->
  get_developer_category config p = Ok lp ->
  get_developer_category config q = Ok lq ->
  (band_rank lp <= band_rank lq)%nat.
Proof.
  intros Hconfig Hpq Hp Hq.
  rewrite (get_developer_category_configured config b r e s p Hconfig) in Hp.
  rewrite (get_developer_category_configured config b r e s q Hconfig) in Hq.
  injection Hp as <-. injection Hq as <-.
  destruct (Z.leb_spec p b), (Z.leb_spec q b); try lia;
    destruct (Z.leb_spec p r), (Z.leb_spec q r); try lia;
    destruct (Z.leb_spec p e), (Z.leb_spec q e); try lia;
    destruct (Z.leb_spec p s), (Z.leb_spec q s); try lia;
    vm_compute; lia.
Qed.

Lemma category_monotone_witness :
  configured example_config 5 20 50 100 /\ 6 <= 1000 /\
  (band_rank "Rising Star" <= band_rank "Elite Developer")%nat.
Proof.
  split; [exact example_configured|]. split; [lia|].
  exact (category_monotone example_config 5 20 50 100 6 1000 _ _
           example_configured ltac:(lia) eq_refl eq_refl).
Defined.

(** ** Loading: what can fail *)






(** ** The contact join, entry by entry *)

Lemma merge_row_entries (contacts_df : list Contacts.row) (e : Enriched) :
  merge_row contacts_df e
  = match entries contacts_df (contributor e) with
    | [] => [unmatched e]
    | c :: cs => map (joined e) (c :: cs)
    end.
Proof. reflexivity. Qed.





Lemma entries_distinct (contacts_df : list Contacts.row) (key : option string) :
  List.NoDup (map Contacts.Developer contacts_df) ->
  entries contacts_df key = [] \/ exists c, entries contacts_df key = [c].
Proof.
  unfold entries. induction contacts_df as [|c cs IH]; cbn; [auto|].
  intros Hnodup. apply List.NoDup_cons_iff in Hnodup as [Hfresh Hnodup].
  destruct (key_eqb key (Contacts.Developer c)) eqn:Hkey.
  - right. exists c. f_equal. apply filter_none. intros c' Hc'.
    apply key_eqb_false. intros ->. apply key_eqb_true in Hkey.
    apply Hfresh. rewrite <- Hkey. apply in_map. exact Hc'.
  - apply IH. exact Hnodup.
Qed.

Lemma merge_contacts_distinct (df : list Enriched) (contacts_df : list Contacts.row) :
  List.NoDup (map Contacts.Developer contacts_df) ->
  map base (merge_contacts df contacts_df) = df.
Proof.
  intros Hnodup. unfold merge_contacts.
  induction df as [|e df IH]; [reflexivity|].
  cbn [flat_map]. rewrite map_app, IH, merge_row_entries.
  destruct (entries_distinct contacts_df (contributor e) Hnodup) as [->|(c & ->)];
    reflexivity.
Qed.

Lemma map_result_length {A B : Type} (f : A -> result B) (xs : list A) (ys : list B) :
  map_result f xs = Ok ys -> length ys = length xs.
Proof.
  intros Hrun.
  pose proof (map_result_map f (fun _ => tt) (fun _ => tt) xs ys (fun _ _ _ => eq_refl) Hrun)
    as Hmap.
  apply (f_equal (@length unit)) in Hmap. rewrite !length_map in Hmap. exact Hmap.
Qed.

(** X5. When no two entries of the contact file share a key, the
    loaded table has one row per CSV row, in the order of the CSV, with
    the contributor identifier of that row. *)
Theorem one_row_per_contributor (countries_get : string -> result (option Country))
    (config : Config) (raw_df : list Raw.row) (contacts : contacts_file) (df : list Row) :
  List.NoDup (map Contacts.Developer (read_contacts contacts)) ->
  load_and_process_data countries_get config (Some raw_df) contacts = Ok df ->
  length df = length raw_df /\
  map (fun r => contributor (base r)) df = map Raw.contributor raw_df /\
  map_result (enrich countries_get config) raw_df = Ok (map base df).
Proof.
  unfold load_and_process_data. intros Hnodup Hload.
  destruct (map_result _ raw_df) as [enriched|] eqn:Hmap; cbn in Hload; [|discriminate].
  injection Hload as <-.
  pose proof (merge_contacts_distinct enriched _ Hnodup) as Hbase.
  split; [|split].
  - rewrite <- (List.length_map base), Hbase. exact (map_result_length _ _ _ Hmap).
  - rewrite <- (map_map base contributor), Hbase.
    apply (map_result_map (enrich countries_get config)); [|exact Hmap].
    intros raw e He. apply enrich_Ok in He as (category & _ & ->). reflexivity.
  - rewrite Hbase. reflexivity.
Qed.

Lemma example_contacts_distinct :
  List.NoDup (map Contacts.Developer (read_contacts example_contacts)).
Proof. cbn. repeat constructor. intros []. Qed.

Lemma one_row_per_contributor_witness :
  List.NoDup (map Contacts.Developer (read_contacts example_contacts)) /\
  length example_df = length example_raw /\
  map (fun r => contributor (base r)) example_df = map Raw.contributor example_raw.
Proof.
  split; [exact example_contacts_distinct|].
  destruct (one_row_per_contributor example_countries example_config example_raw
              example_contacts example_df example_contacts_distinct example_loaded)
    as (Hlen & Hkeys & _).
  split; assumption.
Defined.


(** ** Widget options *)

Lemma sorted_set_In (xs : list string) (x : string) : In x (sorted_set xs) <-> In x xs.
Proof.
  unfold sorted_set. rewrite <- !list_elem_of_In.
  rewrite (merge_sort_Permutation String.le (remove_dups xs)).
  apply elem_of_remove_dups.
Qed.

Lemma sorted_set_NoDup (xs : list string) : List.NoDup (sorted_set xs).
Proof.
  unfold sorted_set. apply NoDup_ListNoDup.
  rewrite (merge_sort_Permutation String.le (remove_dups xs)).
  apply NoDup_remove_dups.
Qed.

Lemma sorted_set_sorted (xs : list string) : StronglySorted String.le (sorted_set xs).
Proof. unfold sorted_set. apply StronglySorted_merge_sort; apply _. Qed.

Lemma column_values_In (column : Row -> list string) (df : list Row) (x : string) :
  In x (column_values column df) <-> exists r, In r df /\ In x (column r).
Proof. unfold column_values. apply in_flat_map. Qed.

(** X6. The language options offered in the sidebar are the languages
    that occur in some row of the loaded table, each once, in ascending
    order. With nothing selected in the other two facets, any non-empty
    choice among them leaves at least one row after filtering. *)
Theorem language_options (ui : Session) (df : nat) (h : heap) :
  is_Some (h !! df) ->
  let options := all_languages (frame h df) in
  (forall x, In x options <-> exists r, In r (frame h df) /\ In x (languages (base r))) /\
  List.NoDup options /\
  StronglySorted String.le options /\
  (selected_languages ui <> [] ->
   (forall x, In x (selected_languages ui) -> In x options) ->
   selected_categories ui = [] ->
   selected_projects ui = [] ->
   frame (apply_filters ui df h).2 (apply_filters ui df h).1 <> []).
Proof.
  intros Hdf. cbv zeta. unfold all_languages.
  split; [intros x; rewrite sorted_set_In; apply column_values_In|].
  split; [apply sorted_set_NoDup|]. split; [apply sorted_set_sorted|].
  intros Hsel Hoffered Hcat Hproj.
  destruct (apply_filters_spec ui df h Hdf) as (_ & _ & ->).
  destruct (selected_languages ui) as [|x xs] eqn:Hlang; [congruence|].
  assert (Hx : In x (sorted_set (column_values (fun r => languages (base r)) (frame h df))))
    by (apply Hoffered; left; reflexivity).
  apply sorted_set_In, column_values_In in Hx as (r & Hr & Hxr).
  assert (Hin : In r (List.filter (row_selectedb ui) (frame h df))).
  { apply filter_In. split; [exact Hr|]. apply row_selectedb_true.
    unfold row_selected, facet_ok. rewrite Hlang, Hcat, Hproj.
    split; [right; exists x; split; [left; reflexivity | exact Hxr] | auto]. }
  intros Hnil. rewrite Hnil in Hin. destruct Hin.
Qed.

Lemma language_options_witness :
  is_Some (example_heap !! 0%nat) /\
  all_languages (frame example_heap 0%nat) = ["Cairo"; "Go"; "Rust"] /\
  frame (apply_filters example_ui 0%nat example_heap).2
        (apply_filters example_ui 0%nat example_heap).1 <> [].
Proof.
  split; [exact example_heap_df|]. split; [reflexivity|].
  destruct (language_options example_ui 0%nat example_heap example_heap_df)
    as (_ & _ & _ & Hsome).
  apply Hsome; try reflexivity.
  - discriminate.
  - intros x [<-|[]]. right. right. left. reflexivity.
Defined.


(** ** Filters: wider and narrower selections *)

Lemma facet_wider_ok (wide narrow values : list string) :
  facet_wider wide narrow -> facet_ok narrow values -> facet_ok wide values.
Proof.
  unfold facet_wider, facet_ok.
  intros [->|[Hne Hsub]] [Hnil|(x & Hx & Hv)]; auto.
  - congruence.
  - right. exists x. auto.
Qed.

Lemma filter_sublist {A : Type} (p q : A -> bool) (xs : list A) :
  (forall x, p x = true -> q x = true) ->
  sublist (List.filter p xs) (List.filter q xs).
Proof.
  intros Hpq. induction xs as [|x xs IH]; cbn; [constructor|].
  destruct (p x) eqn:Hp.
  - rewrite (Hpq x Hp). apply sublist_skip. exact IH.
  - destruct (q x); [apply sublist_cons|]; exact IH.
Qed.

(** X7. Selecting more values in a facet, or clearing a facet, never
    removes a row: if each facet of one session is at least as wide as
    in another, the rows the other session keeps are kept, in the same
    order. Two sessions whose facets are each as wide as the other's,
    for instance the same values selected in another order, keep the
    same rows. *)
Theorem facet_filters_monotone (wide narrow : Session) (df : nat) (h : heap) :
  is_Some (h !! df) ->
  facet_wider (selected_languages wide) (selected_languages narrow) ->
  facet_wider (selected_categories wide) (selected_categories narrow) ->
  facet_wider (selected_projects wide) (selected_projects narrow) ->
  sublist (frame (apply_filters narrow df h).2 (apply_filters narrow df h).1)
          (frame (apply_filters wide df h).2 (apply_filters wide df h).1) /\
  (facet_wider (selected_languages narrow) (selected_languages wide) ->
   facet_wider (selected_categories narrow) (selected_categories wide) ->
   facet_wider (selected_projects narrow) (selected_projects wide) ->
   frame (apply_filters narrow df h).2 (apply_filters narrow df h).1
   = frame (apply_filters wide df h).2 (apply_filters wide df h).1).
Proof.
  intros Hdf Hl Hc Hp.
  destruct (apply_filters_spec wide df h Hdf) as (_ & _ & ->).
  destruct (apply_filters_spec narrow df h Hdf) as (_ & _ & ->).
  assert (Himp : forall a b : Session,
    facet_wider (selected_languages a) (selected_languages b) ->
    facet_wider (selected_categories a) (selected_categories b) ->
    facet_wider (selected_projects a) (selected_projects b) ->
    forall r, row_selectedb b r = true -> row_selectedb a r = true).
  { intros a b Hl' Hc' Hp' r Hr. apply row_selectedb_true in Hr as (H1 & H2 & H3).
    apply row_selectedb_true. repeat split; eapply facet_wider_ok; eassumption. }
  split.
  - apply filter_sublist. apply Himp; assumption.
  - intros Hl' Hc' Hp'. apply List.filter_ext. intros r.
    pose proof (Himp wide narrow Hl Hc Hp r) as H1.
    pose proof (Himp narrow wide Hl' Hc' Hp' r) as H2.
    destruct (row_selectedb narrow r), (row_selectedb wide r); auto.
    + symmetry. auto.
Qed.

Lemma facet_filters_monotone_witness :
  is_Some (example_heap !! 0%nat) /\
  sublist (frame (apply_filters example_ui 0%nat example_heap).2
                 (apply_filters example_ui 0%nat example_heap).1)
          (frame (apply_filters idle_ui 0%nat example_heap).2
                 (apply_filters idle_ui 0%nat example_heap).1).
Proof.
  split; [exact example_heap_df|].
  apply (facet_filters_monotone idle_ui example_ui 0%nat example_heap example_heap_df);
    left; reflexivity.
Defined.

(** ** What the write forgets *)

Lemma main_contacts_written (ui : Session) (df : nat) (h : heap) (file : contacts_file) :
  is_Some (h !! df) ->
  main_contacts ui df h file
  = if editor_in_session_state ui
    then Some (map contact_columns (data_editor ui (shown ui (frame h df))))
    else file.
Proof.
  intros Hdf. unfold main_contacts, shown.
  destruct (apply_filters_spec ui df h Hdf) as (_ & _ & F).
  destruct (apply_filters ui df h) as [filtered_df h']. cbn [fst snd] in F.
  rewrite F. reflexivity.
Qed.

Lemma shown_In (ui : Session) (rows : list Row) (t : Table.row) :
  In t (shown ui rows) <->
  exists r, In r rows /\ row_selected ui r /\ category_selected ui r /\ t = table_row r.
Proof.
  unfold shown. rewrite developer_table_In. split.
  - intros (r & Hr & Hcat & ->). apply filter_In in Hr as [Hr Hsel].
    apply row_selectedb_true in Hsel. exists r. auto.
  - intros (r & Hr & Hsel & Hcat & ->). exists r. split; [|auto].
    apply filter_In. split; [exact Hr | apply row_selectedb_true; exact Hsel].
Qed.

(** X8. A contributor hidden by the filters during a session in which
    the file is written loses the contact state: if every row of the
    contributor is filtered out and the user's edits add no developer,
    then at the next load every row of that contributor has no joined
    key and both flags false, whatever the file held before. *)
Theorem hidden_contributor_forgotten (countries_get : string -> result (option Country))
    (config : Config) (raw_df : list Raw.row) (ui : Session) (df : nat) (h : heap)
    (file : contacts_file) (who : option string) (df' : list Row) :
  is_Some (h !! df) ->
  editor_in_session_state ui = true ->
  (forall r, In r (frame h df) -> contributor (base r) = who ->
             ~ (row_selected ui r /\ category_selected ui r)) ->
  (forall t, In t (data_editor ui (shown ui (frame h df))) ->
             exists t', In t' (shown ui (frame h df)) /\
                        Table.Developer t' = Table.Developer t) ->
  load_and_process_data countries_get config (Some raw_df) (main_contacts ui df h file)
    = Ok df' ->
  forall r', In r' df' -> contributor (base r') = who ->
    Developer r' = None /\ Contact r' = false /\ Contacted r' = false.
Proof.
  intros Hdf Hkey Hhidden Hedits Hload r' Hr' Hwho.
  rewrite (main_contacts_written ui df h file Hdf), Hkey in Hload.
  unfold load_and_process_data in Hload.
  destruct (map_result _ raw_df) as [enriched|]; cbn in Hload; [|discriminate].
  injection Hload as <-. unfold merge_contacts in Hr'.
  apply in_flat_map in Hr' as (e & _ & Hr').
  pose proof (merge_row_base _ _ _ Hr') as Hbase. rewrite Hbase in Hwho.
  rewrite merge_row_unmatched in Hr'.
  - destruct Hr' as [<-|[]]. repeat split.
  - intros c Hc Hdev. apply in_map_iff in Hc as (t & <- & Ht).
    destruct (Hedits t Ht) as (t' & Ht' & Hsame).
    apply shown_In in Ht' as (r & Hr & Hsel & Hcat & ->).
    apply (Hhidden r Hr); [|auto].
    cbn in Hsame, Hdev. congruence.
Qed.

(** On the example, bob has [Contact] true in the file; a session that
    shows "Rising Star" developers only hides him, and after its write
    his flag is false. *)
Lemma hidden_contributor_forgotten_witness :
  In (example_row 1) example_df /\ Contact (example_row 1) = true /\
  forall df',
    load_and_process_data example_countries example_config (Some example_raw)
      (main_contacts example_ui 0%nat example_heap example_contacts) = Ok df' ->
    forall r', In r' df' -> contributor (base r') = Some "bob" ->
      Developer r' = None /\ Contact r' = false /\ Contacted r' = false.
Proof.
  split; [right; left; reflexivity|]. split; [reflexivity|].
  intros df'.
  apply (hidden_contributor_forgotten example_countries example_config example_raw
           example_ui 0%nat example_heap example_contacts (Some "bob") df'
           example_heap_df eq_refl).
  - intros r Hr Hbob [_ [Hnil|Hcat]]; [discriminate Hnil|].
    destruct Hr as [<-|[<-|[<-|[]]]]; try discriminate Hbob.
    destruct Hcat as [Hcat|[]]. discriminate Hcat.
  - intros t Ht. apply in_map_iff in Ht as (t' & <- & Ht').
    exists t'. split; [exact Ht' | reflexivity].
Defined.

(** X9. In a session with nothing selected and nothing edited, the
    file [main] writes is the one [save_contacts] writes for the loaded
    table: a row per row of the table, with its contributor identifier
    and its two flags. *)
Theorem idle_session_saves_table (ui : Session) (df : nat) (h : heap) (file : contacts_file) :
  is_Some (h !! df) ->
  editor_in_session_state ui = true ->
  selected_languages ui = [] ->
  selected_categories ui = [] ->
  selected_projects ui = [] ->
  selected_dev_categories ui = [] ->
  data_editor ui (map table_row (frame h df)) = map table_row (frame h df) ->
  main_contacts ui df h file = save_contacts (frame h df).
Proof.
  intros Hdf Hkey Hl Hc Hp Hd Hedit.
  rewrite (main_contacts_written ui df h file Hdf), Hkey.
  unfold shown, developer_table. rewrite Hd. cbn [selected].
  rewrite filter_all.
  - rewrite Hedit. unfold save_contacts. rewrite map_map. reflexivity.
  - intros r _. unfold row_selectedb, facet_okb. rewrite Hl, Hc, Hp. reflexivity.
Qed.

Lemma idle_session_saves_table_witness :
  is_Some (example_heap !! 0%nat) /\
  main_contacts idle_ui 0%nat example_heap None = save_contacts example_df.
Proof.
  split; [exact example_heap_df|].
  exact (idle_session_saves_table idle_ui 0%nat example_heap None example_heap_df
           eq_refl eq_refl eq_refl eq_refl eq_refl eq_refl).
Defined.

(** ** The developer-category filter *)

Lemma get_developer_category_label (config : Config) (pr_count : Z) (label : string) :
  get_developer_category config pr_count = Ok label -> In label labels.
Proof.
  unfold get_developer_category, labels.
  destruct (max_prs _ "beginner") as [b|]; cbn [bind]; [|discriminate].
  destruct (pr_count <=? b); [intros [= <-]; cbn; auto|].
  destruct (max_prs _ "rising_star") as [r|]; cbn [bind]; [|discriminate].
  destruct (pr_count <=? r); [intros [= <-]; cbn; auto|].
  destruct (max_prs _ "established") as [e|]; cbn [bind]; [|discriminate].
  destruct (pr_count <=? e); [intros [= <-]; cbn; auto|].
  destruct (max_prs _ "senior") as [s|]; cbn [bind]; [|discriminate].
  destruct (pr_count <=? s); intros [= <-]; cbn; auto 6.
Qed.

Lemma row_label (countries_get : string -> result (option Country)) (config : Config)
    (raw_df : list Raw.row) (contacts : contacts_file) (df : list Row) (r : Row) :
  load_and_process_data countries_get config (Some raw_df) contacts = Ok df ->
  In r df -> In (developer_category (base r)) labels.
Proof.
  intros Hload Hr.
  destruct (row_origin _ _ _ _ _ Hload r Hr) as (raw & _ & Henrich).
  apply enrich_Ok in Henrich as (category & Hcategory & ->).
  exact (get_developer_category_label _ _ _ Hcategory).
Qed.

(** X10. For rows taken from a loaded table, the options of the
    developer-category filter are the categories of those rows, all
    among the five labels and hence at most five; and any non-empty
    choice among the options leaves at least one row in the editable
    table. *)
Theorem developer_category_filter (countries_get : string -> result (option Country))
    (config : Config) (raw_df : list Raw.row) (contacts : contacts_file)
    (df filtered_df : list Row) (ui : Session) :
  load_and_process_data countries_get config (Some raw_df) contacts = Ok df ->
  (forall r, In r filtered_df -> In r df) ->
  let options := developer_category_options filtered_df in
  (forall x, In x options <->
             exists r, In r filtered_df /\ developer_category (base r) = x) /\
  (forall x, In x options -> In x labels) /\
  (length options <= 5)%nat /\
  (selected_dev_categories ui <> [] ->
   (forall x, In x (selected_dev_categories ui) -> In x options) ->
   developer_table ui filtered_df <> []).
Proof.
  intros Hload Hsub. cbv zeta. unfold developer_category_options.
  assert (Hopt : forall x,
    In x (sorted_set (map (fun r => developer_category (base r)) filtered_df)) <->
    exists r, In r filtered_df /\ developer_category (base r) = x).
  { intros x. rewrite sorted_set_In, in_map_iff. split; intros (r & H1 & H2); eauto. }
  assert (Hlab : forall x,
    In x (sorted_set (map (fun r => developer_category (base r)) filtered_df)) ->
    In x labels).
  { intros x Hx. apply Hopt in Hx as (r & Hr & <-).
    exact (row_label _ _ _ _ _ r Hload (Hsub r Hr)). }
  split; [exact Hopt|]. split; [exact Hlab|]. split.
  - change 5%nat with (length labels).
    apply List.NoDup_incl_length; [apply sorted_set_NoDup | exact Hlab].
  - intros Hsel Hoffered.
    destruct (selected_dev_categories ui) as [|x xs] eqn:Hd; [congruence|].
    destruct (proj1 (Hopt x) (Hoffered x (or_introl eq_refl))) as (r & Hr & Hx).
    assert (Hin : In (table_row r) (developer_table ui filtered_df)).
    { apply developer_table_In. exists r. split; [exact Hr|]. split; [|reflexivity].
      right. rewrite Hx, Hd. left. reflexivity. }
    intros Hnil. rewrite Hnil in Hin. destruct Hin.
Qed.

Lemma developer_category_filter_witness :
  developer_category_options example_df = ["Beginner"; "Rising Star"] /\
  developer_table example_ui example_df <> [].
Proof.
  split; [reflexivity|].
  destruct (developer_category_filter example_countries example_config example_raw
              example_contacts example_df example_df example_ui example_loaded
              (fun r H => H)) as (_ & _ & _ & Hsome).
  apply Hsome.
  - discriminate.
  - intros x [<-|[]]. right. left. reflexivity.
Defined.

(** ** Tags, padding and re-parsing *)

Lemma comma_free_cons (c : ascii) (s : string) :
  comma_free (String c s) <-> c <> ","%char /\ comma_free s.
Proof.
  rewrite !comma_free_contains, contains_char_cons, orb_false_iff.
  destruct (ascii_dec "," c) as [<-|Hc]; split; intros [H1 H2]; try discriminate;
    try congruence; auto.
Qed.

Lemma split_comma_free (s : string) : comma_free s <-> Py.split "," s = [s].
Proof.
  split.
  - induction s as [|c s IH]; [reflexivity|].
    intros Hfree. apply comma_free_cons in Hfree as [Hc Hfree].
    cbn [Py.split]. destruct (Ascii.eqb_spec c ","); [congruence|].
    rewrite (IH Hfree). reflexivity.
  - intros Hsplit. pose proof (split_sep_free ","%char s) as Hall.
    rewrite Hsplit in Hall. inversion Hall as [|? ? Hs _]; subst.
    apply comma_free_contains. exact Hs.
Qed.

Lemma concat_two_occurs (a b : string) (rest : list string) :
  occurs "," (String.concat "," (a :: b :: rest)).
Proof. exists a, (String.concat "," (b :: rest)). reflexivity. Qed.

(** X11. A row is flagged Starknet-exclusive exactly when its
    [ecosystems] cell is a single comma-separated tag in which
    "Starknet" occurs; a cell that joins two or more tags with commas
    is never flagged, whatever the tags are. *)
Theorem starknet_single_tag (x : option string) :
  (starknet_exclusive x = true <->
   exists s, x = Some s /\ Py.split "," s = [s] /\ occurs "Starknet" s) /\
  (forall a b rest,
     x = Some (String.concat "," (a :: b :: rest)) -> starknet_exclusive x = false).
Proof.
  split.
  - rewrite starknet_exclusive_true. split.
    + intros (s & Hs & Hocc & Hfree). exists s. rewrite <- split_comma_free. auto.
    + intros (s & Hs & Hsplit & Hocc). exists s. rewrite split_comma_free. auto.
  - intros a b rest ->.
    destruct (starknet_exclusive _) eqn:Hflag; [|reflexivity].
    apply starknet_exclusive_true in Hflag as (s & [= <-] & _ & Hfree).
    destruct (Hfree (concat_two_occurs a b rest)).
Qed.

Lemma starknet_single_tag_witness :
  starknet_exclusive (Some (String.concat "," ["Starknet"; "Starknet"])) = false.
Proof.
  exact (proj2 (starknet_single_tag _) "Starknet" "Starknet" [] eq_refl).
Defined.

Lemma lstrip_all_space (s : string) : all_space s -> Py.lstrip s = "".
Proof.
  induction s as [|c s IH]; [reflexivity|]. intros [Hc Hs].
  cbn [Py.lstrip]. rewrite Hc. exact (IH Hs).
Qed.

Lemma rstrip_all_space (s : string) : all_space s -> Py.rstrip s = "".
Proof.
  induction s as [|c s IH]; [reflexivity|]. intros [Hc Hs].
  cbn [Py.rstrip]. rewrite (IH Hs), Hc. reflexivity.
Qed.

Lemma lstrip_padding (l s : string) : all_space l -> Py.lstrip (l +:+ s) = Py.lstrip s.
Proof.
  induction l as [|c l IH]; [reflexivity|]. intros [Hc Hl].
  rewrite app_cons. cbn [Py.lstrip]. rewrite Hc. exact (IH Hl).
Qed.

Lemma rstrip_padding (s r : string) : all_space r -> Py.rstrip (s +:+ r) = Py.rstrip s.
Proof.
  intros Hr. induction s as [|c s IH].
  - rewrite app_empty_l. apply rstrip_all_space. exact Hr.
  - rewrite app_cons. cbn [Py.rstrip]. rewrite IH. reflexivity.
Qed.

Lemma strip_padding_r (s r : string) : all_space r -> Py.strip (s +:+ r) = Py.strip s.
Proof.
  intros Hr. unfold Py.strip. induction s as [|c s IH].
  - rewrite app_empty_l, (lstrip_all_space r Hr). reflexivity.
  - rewrite app_cons. cbn [Py.lstrip]. destruct (Py.isspace c); [exact IH|].
    rewrite <- app_cons. apply rstrip_padding. exact Hr.
Qed.

Lemma strip_padding (l s r : string) :
  all_space l -> all_space r -> Py.strip (l +:+ s +:+ r) = Py.strip s.
Proof.
  intros Hl Hr. unfold Py.strip at 1. rewrite (lstrip_padding l _ Hl).
  apply strip_padding_r. exact Hr.
Qed.

(** X12. Whitespace around a country code does not change the country
    name: a code and the same code with whitespace before and after it
    get the same name, provided neither is the text "Unknown", which is
    compared before the whitespace is removed. *)
Theorem country_code_padding (countries_get : string -> result (option Country))
    (leading code trailing : string) :
  all_space leading ->
  all_space trailing ->
  code <> "Unknown" ->
  leading +:+ code +:+ trailing <> "Unknown" ->
  country_code_to_name countries_get (leading +:+ code +:+ trailing)
  = country_code_to_name countries_get code.
Proof.
  intros Hl Hr Hcode Hpadded. unfold country_code_to_name.
  destruct (String.eqb_spec code "Unknown"); [congruence|].
  destruct (String.eqb_spec (leading +:+ code +:+ trailing) "Unknown"); [congruence|].
  rewrite (strip_padding leading code trailing Hl Hr). reflexivity.
Qed.

Lemma country_code_padding_witness :
  country_code_to_name example_countries " FR  " = "France".
Proof.
  assert (Hl : all_space " ") by (cbn; auto).
  assert (Hr : all_space "  ") by (cbn; auto).
  assert (Hcode : "FR" <> "Unknown") by discriminate.
  assert (Hpadded : " " +:+ "FR" +:+ "  " <> "Unknown") by discriminate.
  exact (eq_trans
           (country_code_padding example_countries " " "FR" "  " Hl Hr Hcode Hpadded)
           eq_refl).
Defined.

Lemma lstrip_trimmed (t : string) :
  (forall c u, t = String c u -> Py.isspace c = false) -> Py.lstrip t = t.
Proof.
  destruct t as [|c u]; [reflexivity|]. intros Hhead.
  cbn [Py.lstrip]. rewrite (Hhead c u eq_refl). reflexivity.
Qed.

Lemma rstrip_trimmed (t : string) :
  (forall c u, t = u +:+ String c "" -> Py.isspace c = false) -> Py.rstrip t = t.
Proof.
  induction t as [|a t IH]; [reflexivity|]. intros Hlast.
  cbn [Py.rstrip]. rewrite IH.
  - destruct t as [|b t]; [|rewrite andb_false_r; reflexivity].
    rewrite (Hlast a "" eq_refl). reflexivity.
  - intros c u ->. apply (Hlast c (String a u)). reflexivity.
Qed.

Lemma strip_trimmed (t : string) : trimmed t -> Py.strip t = t.
Proof.
  intros [Hhead Hlast]. unfold Py.strip.
  rewrite (lstrip_trimmed t Hhead). exact (rstrip_trimmed t Hlast).
Qed.

Lemma parse_list_token (s t : string) :
  In t (parse_list s) -> trimmed t /\ t <> "" /\ comma_free t.
Proof.
  unfold parse_list. rewrite (map_filter_comm Py.strip Py.truthy).
  intros Ht. apply filter_In in Ht as [Ht Htruthy].
  apply in_map_iff in Ht as (piece & <- & Hpiece).
  destruct (strip_is_trim piece) as (leading & trailing & Hsplit & _ & _ & Htrim).
  split; [exact Htrim|]. split.
  - intros Hnil. rewrite Hnil in Htruthy. discriminate Htruthy.
  - pose proof (split_sep_free ","%char s) as Hall.
    rewrite List.Forall_forall in Hall. specialize (Hall piece Hpiece).
    apply comma_free_contains in Hall. rewrite Hsplit in Hall.
    apply comma_free_app in Hall as [_ Hall].
    apply comma_free_app in Hall as [Hall _]. exact Hall.
Qed.

Lemma split_app_comma (t u : string) :
  comma_free t -> Py.split "," (t +:+ String "," u) = t :: Py.split "," u.
Proof.
  induction t as [|c t IH]; intros Hfree.
  - reflexivity.
  - apply comma_free_cons in Hfree as [Hc Hfree].
    rewrite app_cons. cbn [Py.split]. destruct (Ascii.eqb_spec c ","); [congruence|].
    rewrite (IH Hfree). reflexivity.
Qed.

Lemma split_concat_inv (ts : list string) :
  ts <> [] -> Forall comma_free ts -> Py.split "," (String.concat "," ts) = ts.
Proof.
  induction ts as [|t ts IH]; [congruence|]. intros _ Hall.
  inversion Hall as [|? ? Ht Hts]; subst.
  destruct ts as [|t' ts].
  - cbn [String.concat]. apply split_comma_free. exact Ht.
  - change (String.concat "," (t :: t' :: ts))
      with (t +:+ String "," (String.concat "," (t' :: ts))).
    rewrite (split_app_comma _ _ Ht), IH; [reflexivity | discriminate | exact Hts].
Qed.

Lemma parse_list_tokens (ts : list string) :
  (forall t, In t ts -> trimmed t /\ t <> "" /\ comma_free t) ->
  parse_list (String.concat "," ts) = ts.
Proof.
  intros Hts. destruct ts as [|t0 ts0] eqn:Hshape; [reflexivity|]. rewrite <- Hshape in *.
  unfold parse_list. rewrite split_concat_inv.
  - clear Hshape. induction ts as [|t ts IH]; [reflexivity|].
    destruct (Hts t (or_introl eq_refl)) as (Htrim & Hne & _).
    cbn [List.filter]. rewrite (strip_trimmed t Htrim).
    destruct t as [|c t]; [congruence|]. cbn [Py.truthy Py.is_empty negb map].
    rewrite (strip_trimmed _ Htrim), IH; [reflexivity|].
    intros t' Ht'. apply Hts. right. exact Ht'.
  - rewrite Hshape. discriminate.
  - apply List.Forall_forall. intros t Ht. apply (Hts t Ht).
Qed.

(** X13. The values of a parsed list column hold no comma, have no
    whitespace at either end and are not empty; so joining them with
    commas and parsing the result gives the same list again. *)
Theorem list_column_reparse (cell : option string) :
  (forall t, In t (list_column cell) -> comma_free t /\ trimmed t /\ t <> "") /\
  list_column (Some (String.concat "," (list_column cell))) = list_column cell.
Proof.
  assert (Htokens : forall t, In t (list_column cell) ->
                              trimmed t /\ t <> "" /\ comma_free t).
  { intros t. unfold list_column. apply parse_list_token. }
  split.
  - intros t Ht. destruct (Htokens t Ht) as (H1 & H2 & H3). auto.
  - unfold list_column at 1. cbn [fillna]. apply parse_list_tokens. exact Htokens.
Qed.

Example list_column_reparse_example :
  list_column (Some " Cairo , ,Rust,") = ["Cairo"; "Rust"] /\
  String.concat "," ["Cairo"; "Rust"] = "Cairo,Rust" /\
  list_column (Some "Cairo,Rust") = ["Cairo"; "Rust"].
Proof. repeat split. Qed.


Lemma list_column_reparse_witness :
  In "Rust" (list_column (Some " Cairo , ,Rust,")) /\
  comma_free "Rust" /\
  list_column (Some (String.concat "," (list_column (Some " Cairo , ,Rust,"))))
  = ["Cairo"; "Rust"].
Proof.
  assert (Hin : In "Rust" (list_column (Some " Cairo , ,Rust,")))
    by (right; left; reflexivity).
  destruct (list_column_reparse (Some " Cairo , ,Rust,")) as (Htokens & Hagain).
  split; [exact Hin|]. split; [exact (proj1 (Htokens "Rust" Hin))|].
  rewrite Hagain. reflexivity.
Defined.

(** ** Distributions *)

Section ValueCountsProperties.

Context {A : Type} `{EqDecision A}.
Variable sort_values : list (A * nat) -> list (A * nat).
Hypothesis sort_values_permutation : forall l, sort_values l ≡ₚ l.

Lemma occurrences_cons (v x : A) (column : list A) :
  occurrences v (x :: column)
  = ((if bool_decide (x = v) then 1 else 0) + occurrences v column)%nat.
Proof. unfold occurrences. cbn. destruct (bool_decide (x = v)); reflexivity. Qed.

Lemma occurrences_pos (v : A) (column : list A) :
  In v column <-> (0 < occurrences v column)%nat.
Proof.
  induction column as [|x column IH]; [cbn; lia|].
  rewrite occurrences_cons. cbn [In]. rewrite IH.
  destruct (bool_decide_reflect (x = v)); [split; [lia | auto]|].
  split; [intros [?|?]; [congruence | lia] | intros ?; right; lia].
Qed.

Lemma sum_indicator (x : A) (vs : list A) :
  NoDup vs -> x ∈ vs ->
  sum_list_with (fun v => if bool_decide (x = v) then 1 else 0)%nat vs = 1%nat.
Proof.
  induction 1 as [|v vs Hfresh Hnodup IH]; intros Hx; [inversion Hx|].
  cbn. destruct (bool_decide_reflect (x = v)) as [->|Hne].
  - assert (Hzero : forall l : list A, v ∉ l ->
              sum_list_with (fun v0 => if bool_decide (v = v0) then 1 else 0)%nat l = 0%nat).
    { clear. induction l as [|y l IHl]; intros Hy; [reflexivity|].
      apply not_elem_of_cons in Hy as [Hy1 Hy2]. cbn.
      rewrite (bool_decide_eq_false_2 _ Hy1), (IHl Hy2). reflexivity. }
    rewrite (Hzero vs Hfresh). reflexivity.
  - apply elem_of_cons in Hx as [Hx|Hx]; [congruence|]. rewrite (IH Hx). reflexivity.
Qed.

Lemma sum_occurrences (vs column : list A) :
  NoDup vs -> (forall x, In x column -> x ∈ vs) ->
  sum_list_with (fun v => occurrences v column) vs = length column.
Proof.
  intros Hnodup. induction column as [|x column IH]; intros Hcover.
  - clear. induction vs as [|v vs IHvs]; [reflexivity|]. cbn. exact IHvs.
  - assert (Hsplit : forall l : list A,
      sum_list_with (fun v => occurrences v (x :: column)) l
      = (sum_list_with (fun v => if bool_decide (x = v) then 1 else 0)%nat l
         + sum_list_with (fun v => occurrences v column) l)%nat).
    { induction l as [|v l IHl]; [reflexivity|].
      cbn [sum_list_with]. rewrite IHl, occurrences_cons. lia. }
    rewrite Hsplit, (sum_indicator x vs Hnodup (Hcover x (or_introl eq_refl))), IH.
    + reflexivity.
    + intros y Hy. apply Hcover. right. exact Hy.
Qed.

Lemma remove_dups_In (column : list A) (v : A) :
  In v (remove_dups column) <-> In v column.
Proof. rewrite <- !list_elem_of_In. apply elem_of_remove_dups. Qed.

Lemma value_counts_total (column : list A) :
  sum_list_with snd (value_counts sort_values column) = length column.
Proof.
  unfold value_counts. rewrite (sort_values_permutation _).
  rewrite <- (sum_occurrences (remove_dups column) column).
  - induction (remove_dups column) as [|v vs IH]; [reflexivity|].
    cbn. rewrite IH. reflexivity.
  - apply NoDup_remove_dups.
  - intros x Hx. apply elem_of_remove_dups, list_elem_of_In. exact Hx.
Qed.

Lemma value_counts_In (column : list A) (v : A) (n : nat) :
  In (v, n) (value_counts sort_values column) <->
  (0 < n)%nat /\ n = occurrences v column.
Proof.
  unfold value_counts. rewrite <- list_elem_of_In, (sort_values_permutation _).
  rewrite list_elem_of_In, in_map_iff. split.
  - intros (v' & [= -> <-] & Hv).
    rewrite remove_dups_In, occurrences_pos in Hv. auto.
  - intros [Hpos ->]. exists v. split; [reflexivity|].
    rewrite remove_dups_In, occurrences_pos. exact Hpos.
Qed.

Lemma value_counts_keys (column : list A) :
  List.NoDup (map fst (value_counts sort_values column)).
Proof.
  apply NoDup_ListNoDup. unfold value_counts.
  change (map fst ?l) with (fst <$> l).
  rewrite (sort_values_permutation _).
  change (fst <$> ?l) with (map fst l). rewrite map_map. cbn [fst].
  rewrite map_id. apply NoDup_remove_dups.
Qed.

End ValueCountsProperties.

Lemma by_count_permutation {A : Type} (l : list (A * nat)) : by_count l ≡ₚ l.
Proof. unfold by_count. apply merge_sort_Permutation. Qed.

Lemma occurrences_map {B : Type} (f : B -> bool) (flag : bool) (rows : list B) :
  occurrences flag (map f rows)
  = length (List.filter (fun r => Bool.eqb (f r) flag) rows).
Proof.
  induction rows as [|r rows IH]; [reflexivity|].
  cbn [map List.filter]. rewrite occurrences_cons, IH.
  destruct (f r), flag; reflexivity.
Qed.

(** X14. Whatever order pandas gives to equal counts, the category
    distribution of the rows shown has one bar per developer category
    that occurs among them, its height the number of rows of that
    category and never zero; the heights add up to the number of rows;
    and for rows of a loaded table the bars are among the five labels,
    so there are at most five. *)
Theorem category_distribution (countries_get : string -> result (option Country))
    (config : Config) (raw_df : list Raw.row) (contacts : contacts_file)
    (df filtered_df : list Row)
    (sort_values : list (string * nat) -> list (string * nat)) :
  (forall l, sort_values l ≡ₚ l) ->
  load_and_process_data countries_get config (Some raw_df) contacts = Ok df ->
  (forall r, In r filtered_df -> In r df) ->
  let counts := category_counts sort_values filtered_df in
  sum_list_with snd counts = length filtered_df /\
  List.NoDup (map fst counts) /\
  (forall v n,
     In (v, n) counts <->
     (0 < n)%nat /\
     n = occurrences v (map (fun r => developer_category (base r)) filtered_df)) /\
  (forall v n, In (v, n) counts -> In v labels) /\
  (length counts <= 5)%nat.
Proof.
  intros Hsort Hload Hsub. cbv zeta. unfold category_counts.
  set (column := map (fun r => developer_category (base r)) filtered_df).
  assert (Hlabels : forall v n, In (v, n) (value_counts sort_values column) -> In v labels).
  { intros v n Hvn. apply (value_counts_In sort_values Hsort) in Hvn as [Hpos ->].
    apply occurrences_pos in Hpos. unfold column in Hpos.
    apply in_map_iff in Hpos as (r & <- & Hr).
    exact (row_label _ _ _ _ _ r Hload (Hsub r Hr)). }
  split; [|split; [|split; [|split]]].
  - rewrite (value_counts_total sort_values Hsort). unfold column.
    apply List.length_map.
  - apply (value_counts_keys sort_values Hsort).
  - intros v n. apply (value_counts_In sort_values Hsort).
  - exact Hlabels.
  - rewrite <- (List.length_map fst). change 5%nat with (length labels).
    apply List.NoDup_incl_length; [apply (value_counts_keys sort_values Hsort)|].
    intros v Hv. apply in_map_iff in Hv as ([v' n] & <- & Hvn). exact (Hlabels v' n Hvn).
Qed.

Lemma category_distribution_witness :
  category_counts by_count example_df = [("Beginner", 2%nat); ("Rising Star", 1%nat)] /\
  sum_list_with snd (category_counts by_count example_df) = length example_df.
Proof.
  split; [reflexivity|].
  exact (proj1 (category_distribution example_countries example_config example_raw
                  example_contacts example_df example_df by_count
                  by_count_permutation example_loaded (fun r H => H))).
Defined.

(** X15. The network pie has a slice for the Starknet-exclusive rows
    and one for the others, each only if there is such a row; its size
    is the number of those rows, the two sizes add up to the number of
    rows shown, and the slices carry distinct labels. *)
Theorem network_split (filtered_df : list Row)
    (sort_values : list (bool * nat) -> list (bool * nat)) :
  (forall l, sort_values l ≡ₚ l) ->
  let dist := network_dist sort_values filtered_df in
  sum_list_with snd dist = length filtered_df /\
  (forall flag n,
     In (flag, n) dist <->
     (0 < n)%nat /\
     n = length (List.filter (fun r => Bool.eqb (is_starknet_exclusive (base r)) flag)
                   filtered_df)) /\
  List.NoDup (network_labels dist) /\
  (forall label, In label (network_labels dist) ->
                 label = "Starknet Only" \/ label = "Multi-chain").
Proof.
  intros Hsort. cbv zeta. unfold network_dist.
  set (column := map (fun r => is_starknet_exclusive (base r)) filtered_df).
  split; [|split; [|split]].
  - rewrite (value_counts_total sort_values Hsort). unfold column. apply List.length_map.
  - intros flag n. rewrite (value_counts_In sort_values Hsort). unfold column.
    rewrite occurrences_map. reflexivity.
  - pose proof (value_counts_keys sort_values Hsort column) as Hkeys.
    unfold network_labels.
    rewrite <- (map_map fst (fun flag : bool => if flag then "Starknet Only" else "Multi-chain")).
    apply List.NoDup_map_inv with (f := fun label => String.eqb label "Starknet Only").
    rewrite map_map.
    rewrite (map_ext _ (fun flag : bool => flag)); [rewrite map_id; exact Hkeys|].
    intros []; reflexivity.
  - intros label Hlabel. unfold network_labels in Hlabel.
    apply in_map_iff in Hlabel as ([flag n] & <- & _). destruct flag; auto.
Qed.

Lemma network_split_witness :
  network_dist by_count example_df = [(false, 2%nat); (true, 1%nat)] /\
  network_labels (network_dist by_count example_df) = ["Multi-chain"; "Starknet Only"] /\
  sum_list_with snd (network_dist by_count example_df) = length example_df.
Proof.
  split; [reflexivity|]. split; [reflexivity|].
  exact (proj1 (network_split example_df by_count by_count_permutation)).
Defined.


(** ** Groups of the investment charts *)

Lemma explode_keys (column : Row -> list string) (df : list Row) :
  omap fst (explode column df) = column_values column df.
Proof.
  unfold explode, column_values. induction df as [|r df IH]; [reflexivity|].
  cbn [flat_map]. rewrite omap_app, IH. f_equal.
  destruct (column r) as [|x xs]; [reflexivity|].
  induction (x :: xs) as [|y ys IHys]; [reflexivity|].
  cbn. rewrite IHys. reflexivity.
Qed.

Lemma group_rows_app (key : string) (l1 l2 : list (option string * Row)) :
  group_rows key (l1 ++ l2) = group_rows key l1 ++ group_rows key l2.
Proof. unfold group_rows. rewrite List.filter_app, map_app. reflexivity. Qed.

Lemma group_rows_explode (key : string) (column : Row -> list string) (df : list Row) :
  group_rows key (explode column df)
  = flat_map (fun r => repeat r (occurrences key (column r))) df.
Proof.
  unfold explode. induction df as [|r df IH]; [reflexivity|].
  cbn [flat_map]. rewrite group_rows_app, IH. f_equal.
  destruct (column r) as [|x xs]; [reflexivity|].
  induction (x :: xs) as [|y ys IHys]; [reflexivity|].
  rewrite occurrences_cons. cbn [map]. unfold group_rows in *. cbn [List.filter fst].
  destruct (bool_decide_reflect (Some y = Some key)) as [Heq|Hne].
  - injection Heq as ->. rewrite bool_decide_eq_true_2 by reflexivity.
    cbn. rewrite IHys. reflexivity.
  - rewrite bool_decide_eq_false_2 by congruence. cbn. exact IHys.
Qed.

(** X16. Each investment chart has one group per value that occurs in
    the column among the rows shown, in ascending order, and the group
    of a value is aggregated over the rows that list the value, a row
    as many times as it lists it. A row with an empty list is in no
    group, and a row that lists several values is in the group of each
    of them. *)
Theorem investment_groups {V : Type} (agg : list Row -> V) (column : Row -> list string)
    (filtered_df : list Row) :
  let groups := groupby_agg agg column filtered_df in
  map fst groups = sorted_set (column_values column filtered_df) /\
  (forall key v,
     In (key, v) groups <->
     (exists r, In r filtered_df /\ In key (column r)) /\
     v = agg (flat_map (fun r => repeat r (occurrences key (column r))) filtered_df)) /\
  (forall key r,
     In r (group_rows key (explode column filtered_df)) <->
     In r filtered_df /\ In key (column r)).
Proof.
  cbv zeta. unfold groupby_agg, group_keys. rewrite explode_keys.
  split; [|split].
  - rewrite map_map. cbn [fst]. apply map_id.
  - intros key v. rewrite in_map_iff. split.
    + intros (key' & [= -> <-] & Hkey).
      apply sorted_set_In, column_values_In in Hkey.
      split; [exact Hkey|]. rewrite group_rows_explode. reflexivity.
    + intros [Hkey ->]. exists key. rewrite group_rows_explode.
      split; [reflexivity|]. apply sorted_set_In, column_values_In. exact Hkey.
  - intros key r. rewrite group_rows_explode, in_flat_map. split.
    + intros (r' & Hr' & Hrep). apply repeat_spec in Hrep as Heq. subst r'.
      split; [exact Hr'|]. apply occurrences_pos.
      destruct (occurrences key (column r)); [destruct Hrep | lia].
    + intros [Hr Hkey]. exists r. split; [exact Hr|].
      apply occurrences_pos in Hkey.
      destruct (occurrences key (column r)); [lia | left; reflexivity].
Qed.

Lemma investment_groups_witness :
  map fst (groupby_agg (@length Row) (fun r => languages (base r)) example_df)
  = ["Cairo"; "Go"; "Rust"] /\
  groupby_agg (@length Row) (fun r => languages (base r)) example_df
  = [("Cairo", 1%nat); ("Go", 1%nat); ("Rust", 2%nat)] /\
  (In (example_row 1) (group_rows "Rust" (explode (fun r => languages (base r)) example_df))
   <-> In (example_row 1) example_df /\ In "Rust" (languages (base (example_row 1)))).
Proof.
  destruct (investment_groups (@length Row) (fun r => languages (base r)) example_df)
    as (Hkeys & _ & Hrows).
  split; [rewrite Hkeys; reflexivity|]. split; [reflexivity|].
  apply Hrows.
Defined.
